(** * terracotta: the /rgba tile handler

    A shallow embedding of [terracotta/handlers/rgba.py] (function [rgba])
    together with the properties of the tile compositing engine that are
    stated about it.

    Numbers (Python [int] and [float] stretch bounds, pixel values) are
    modelled as exact rationals [Q]; NaN and rounding of binary floating
    point are outside the model.  The handler's interaction with the driver
    is recorded as a chronological list of events next to its outcome.  The
    [@trace] decorator only wraps the call in a profiling segment and is
    left out. *)

From Stdlib Require Import Ascii String List ZArith QArith Qround Lia Lqa Bool.
Import ListNotations.

Local Open Scope string_scope.
Local Open Scope list_scope.
Local Open Scope Q_scope.

(** ** Exceptions and results *)

Inductive exn : Type :=
| InvalidArgumentsError (msg : string)
| DatasetNotFoundError (msg : string)
| ConfigurationError (msg : string)
| ValueError (msg : string)
| OtherError (msg : string).

Inductive result (A : Type) : Type :=
| Ok (a : A)
| Err (e : exn).

Arguments Ok {A} a.
Arguments Err {A} e.

Definition rbind {A B : Type} (r : result A) (f : A -> result B) : result B :=
  match r with
  | Ok a => f a
  | Err e => Err e
  end.

(** ** Data model *)

(** [NumberOrString]: a stretch bound given by the caller is a number, used
    as an absolute bound, or a string [p<digits>] naming a percentile. *)
Inductive scale : Type :=
| Absolute (v : Q)
| Percentile (p : nat).

(** [Optional[Tuple[Optional[NumberOrString], Optional[NumberOrString]]]] *)
Definition stretch_override : Type := option scale * option scale.
Definition ListOfRanges : Type := list (option stretch_override).

(** The part of a dataset's metadata dictionary the handler reads:
    [metadata["range"]] and the optional key ["percentiles"]. *)
Record metadata : Type := {
  md_range : Q * Q;
  md_percentiles : option (list Q)
}.

(** A pixel of a masked array: its value and whether it carries data. *)
Record pixel (A : Type) : Type := {
  px_value : A;
  px_valid : bool
}.

Arguments px_value {A} p.
Arguments px_valid {A} p.

Definition tile : Type := list (list (pixel Q)).
Definition channel : Type := list (list (pixel Z)).
Definition image : Type := list (list (list (pixel Z))).

(** ** [terracotta.image] *)

(** Python's [x < y] on numbers, as a boolean.  The numbers are rationals:
    a float that is not a number, for which every comparison is false, has
    no counterpart here. *)
Definition Qltb (x y : Q) : bool := negb (Qle_bool y x).

Definition percentile_msg : string := "percentile not in percentile table".

(** Modelled from the spec: [image.get_stretch_scale] is not part of the
    sources at hand.  Section 4.1: an absolute override bound is used
    verbatim; a percentile bound [p] looks up [percentile_table[p]]; an
    empty table (or any table without an entry [p]) is a configuration
    error surfaced to the caller. *)
Definition get_stretch_scale (s : scale) (percentiles : list Q) : result Q :=
  match s with
  | Absolute v => Ok v
  | Percentile p =>
      match nth_error percentiles p with
      | Some v => Ok v
      | None => Err (ConfigurationError percentile_msg)
      end
  end.

(** Modelled from the spec: rounding to the nearest integer channel value
    (section 4.3); a tie goes to the upper neighbour. *)
Definition round_nearest (x : Q) : Z := Qfloor (x + (1 # 2)).

(** Modelled from the spec: [clip(x, lo, hi)]. *)
Definition clip (x lo hi : Q) : Q :=
  if Qltb x lo then lo else if Qltb hi x then hi else x.

(** Modelled from the spec: the linear remap of section 4.3,
    [clip((value - low) / (high - low) * 255, 0, 255)], rounded to the
    nearest integer. *)
Definition quantize (low high v : Q) : Z :=
  round_nearest (clip ((v - low) / (high - low) * 255) 0 255).

(** Modelled from the spec: [image.to_uint8] is not part of the sources at
    hand.  Section 4.3: every pixel is remapped; the validity mask is
    carried forward unchanged. *)
Definition to_uint8 (data : tile) (low high : Q) : channel :=
  map (map (fun p => {| px_value := quantize low high (px_value p);
                        px_valid := px_valid p |})) data.

(** ** Resolving one band's stretch range (rgba.py, lines 91-104) *)

(** [metadata.get("percentiles", [])] *)
Definition metadata_percentiles (md : metadata) : list Q :=
  match md_percentiles md with
  | Some t => t
  | None => []
  end.

Definition upper_bound_msg : string :=
  "Upper stretch bound must be higher than lower bound".

Definition resolve_stretch_range (md : metadata) (band_stretch_override : stretch_override)
  : result (Q * Q) :=
  let band_stretch_range := md_range md in
  let '(scale_min, scale_max) := band_stretch_override in
  let percentiles := metadata_percentiles md in
  rbind (match scale_min with
         | Some s => rbind (get_stretch_scale s percentiles)
                       (fun v => Ok (v, snd band_stretch_range))
         | None => Ok band_stretch_range
         end) (fun band_stretch_range =>
  rbind (match scale_max with
         | Some s => rbind (get_stretch_scale s percentiles)
                       (fun v => Ok (fst band_stretch_range, v))
         | None => Ok band_stretch_range
         end) (fun band_stretch_range =>
  if Qltb (snd band_stretch_range) (fst band_stretch_range)
  then Err (InvalidArgumentsError upper_bound_msg)
  else Ok band_stretch_range)).

(** ** [numpy.ma.stack(arrays, axis=-1)] on two-dimensional arrays *)

Definition shape {A : Type} (a : list (list A)) : list nat :=
  map (@length A) a.

Definition no_pixel : pixel Z := {| px_value := 0%Z; px_valid := false |}.

(** The stacked array has the arrays' common shape and, at every grid
    position, one component per input array, in the order of [arrays]. *)
Definition stack_last (first : channel) (arrays : list channel) : image :=
  map (fun r =>
         map (fun c => map (fun a => nth c (nth r a []) no_pixel) arrays)
             (seq 0 (length (nth r first []))))
      (seq 0 (length first)).

Definition ma_stack (arrays : list channel) : result image :=
  match arrays with
  | [] => Err (ValueError "need at least one array to stack")
  | first :: rest =>
      if forallb (fun a => if list_eq_dec Nat.eq_dec (shape a) (shape first)
                           then true else false) rest
      then Ok (stack_last first arrays)
      else Err (ValueError "all input arrays must have the same shape")
  end.

(** The [k]-th component plane of a stacked array, [out[..., k]]. *)
Definition channel_of (out : image) (k : nat) : channel :=
  map (map (fun px => nth k px no_pixel)) out.

(** ** The driver and the handler's effects *)

Definition keys : Type := list string.
Definition xyz_t : Type := (Z * Z * Z)%type.
Definition size_t : Type := (Z * Z)%type.

(** What the handler needs from the driver: the catalog's key names, the
    metadata of a dataset and the raster of a dataset for a tile (the work
    [xyz.get_tile_data] hands to a worker thread). *)
Record Driver : Type := {
  key_names : list string;
  get_metadata : keys -> result metadata;
  get_tile_data : keys -> option xyz_t -> size_t -> result tile
}.

Record Settings : Type := {
  DEFAULT_TILE_SIZE : size_t
}.

(** What the handler does to the outside world, in program order. *)
Inductive event : Type :=
| EvConnect                       (* entering [with driver.connect()] *)
| EvDisconnect                    (* leaving the [with] block *)
| EvKeyNames                      (* reading [driver.key_names] *)
| EvGetTileData (band_keys : keys) (* issuing one asynchronous retrieval *)
| EvGetMetadata (band_keys : keys) (* [driver.get_metadata(keys)] *)
| EvResult (fut : nat)            (* [future.result()] *)
| EvToUint8 (low high : Q).       (* [image.to_uint8(data, low, high)] *)

(** A computation that logs events and returns or raises. *)
Definition M (A : Type) : Type := (list event * result A)%type.

Definition ret {A : Type} (a : A) : M A := ([], Ok a).
Definition raise {A : Type} (e : exn) : M A := ([], Err e).
Definition lift {A : Type} (r : result A) : M A := ([], r).
Definition emit (ev : event) : M unit := ([ev], Ok tt).

Definition bind {A B : Type} (m : M A) (f : A -> M B) : M B :=
  match m with
  | (t, Ok a) => let (t', r) := f a in (t ++ t', r)
  | (t, Err e) => (t, Err e)
  end.

Declare Scope handler_scope.
Delimit Scope handler_scope with handler.
Notation "x <- m ;; k" := (bind m (fun x => k))
  (at level 61, m at next level, right associativity) : handler_scope.
Notation "m ;; k" := (bind m (fun _ => k))
  (at level 61, right associativity) : handler_scope.

(** Python's [with driver.connect(): body]: the connection is entered, the
    body runs, and the connection is left whether the body returned or
    raised; the body's outcome is the statement's outcome. *)
Definition with_connect {A : Type} (body : M A) : M A :=
  let (t, r) := body in (EvConnect :: t ++ [EvDisconnect], r).

Definition trace {A : Type} (m : M A) : list event := fst m.
Definition outcome {A : Type} (m : M A) : result A := snd m.

(** ** Futures

    [xyz.get_tile_data(..., asynchronous=True)] returns a future at once; a
    worker thread performs the retrieval.  A future is known by its
    identity; the workers fill one slot per future, in whatever order they
    finish, and [result()] reads the slot of the future it is called on,
    waiting for the worker when the slot is still empty.  A slot holds the
    outcome of its own future's retrieval and of no other, so the order of
    completion decides only which slots are already full, never what a
    future's result is. *)
Record Future : Type := {
  fut_id : nat;
  fut_keys : keys
}.

Definition stretch_count_msg : string :=
  "stretch_ranges argument must contain 4 values".
Definition rgba_count_msg : string :=
  "rgba_values argument must contain 4 values".
Definition key_count_msg : string :=
  "must specify all keys except last one".

(** [stretch_range or (None, None)]: an entry that is [None] stands for the
    pair of two absent bounds (a two-element tuple is never falsy). *)
Definition or_absent (stretch_range : option stretch_override)
  : stretch_override :=
  match stretch_range with
  | Some r => r
  | None => (None, None)
  end.

(** rgba.py, lines 36-37: an omitted [stretch_ranges] argument *)
Definition supplied_ranges (stretch_ranges : option ListOfRanges) : ListOfRanges :=
  match stretch_ranges with
  | None => [None; None; None; None]
  | Some l => l
  end.

(** rgba.py, lines 55-58 *)
Definition effective_tile_size (settings : Settings) (tile_size : option size_t)
  : size_t :=
  match tile_size with
  | None => DEFAULT_TILE_SIZE settings
  | Some s => s
  end.

Section Handler.

Local Open Scope handler_scope.

(** [image.array_to_png] is not part of the sources at hand; the handler
    only passes the stacked array to it. *)
Variable BinaryIO : Type.
Variable array_to_png : image -> result BinaryIO.

Variable settings : Settings.
Variable driver : Driver.

(** The order in which the worker threads finish, by future identity;
    futures not listed are still running when the handler asks for
    their result. *)
Variable finished : list nat.

Section Bands.

Variable some_keys : keys.
Variable tile_xyz : option xyz_t.
Variable tile_size_ : size_t.

Definition worker (fut : Future) : result tile :=
  get_tile_data driver (fut_keys fut) tile_xyz tile_size_.

Definition slots (futures : list Future) : list (nat * result tile) :=
  flat_map (fun j =>
              match find (fun f => Nat.eqb (fut_id f) j) futures with
              | Some f => [(j, worker f)]
              | None => []
              end) finished.

Definition future_result (store : list (nat * result tile)) (fut : Future)
  : M tile :=
  emit (EvResult (fut_id fut)) ;;
  lift (match find (fun s => Nat.eqb (fst s) (fut_id fut)) store with
        | Some s => snd s
        | None => worker fut
        end).

(** rgba.py, lines 70-78.
    Modelled from the spec: [xyz.get_tile_data] is not part of the sources
    at hand.  Sections 5 and 6: issuing a band retrieval hands the driver's
    [get_tile_data(dataset_keys, tile_coordinate, tile_size)] to a task of
    its own and gives a handle to its deferred result; section 4.2: a
    retrieval that fails is propagated as that failure, which is where the
    handle's result is asked for.  Whatever else the absent function does
    before it hands over (looking at the dataset, refusing a tile) is not
    described there and is not in this model. *)
Definition get_band_future (next : nat) (band_key : string) : M Future :=
  let band_keys := some_keys ++ [band_key] in
  emit (EvGetTileData band_keys) ;;
  ret {| fut_id := next; fut_keys := band_keys |}.

(** rgba.py, line 80: the list comprehension over [rgba_values] *)
Fixpoint get_band_futures (next : nat) (rgba_values : list string)
  : M (list Future) :=
  match rgba_values with
  | [] => ret []
  | key :: rest =>
      fut <- get_band_future next key ;;
      futs <- get_band_futures (S next) rest ;;
      ret (fut :: futs)
  end.

(** rgba.py, lines 85-107: the loop over [band_items] *)
Fixpoint band_loop (store : list (nat * result tile))
    (band_items : list (string * (stretch_override * Future)))
    (out_arrays : list channel) : M (list channel) :=
  match band_items with
  | [] => ret out_arrays
  | (band_key, (band_stretch_override, band_data_future)) :: rest =>
      let keys := some_keys ++ [band_key] in
      emit (EvGetMetadata keys) ;;
      metadata <- lift (get_metadata driver keys) ;;
      band_stretch_range <-
        lift (resolve_stretch_range metadata band_stretch_override) ;;
      band_data <- future_result store band_data_future ;;
      emit (EvToUint8 (fst band_stretch_range) (snd band_stretch_range)) ;;
      band_loop store rest
        (out_arrays ++ [to_uint8 band_data (fst band_stretch_range)
                                 (snd band_stretch_range)])
  end.

(** rgba.py, lines 62-107: the body of the [with] block *)
Definition connected (rgba_values : list string)
    (stretch_ranges_ : list stretch_override) : M (list channel) :=
  emit EvKeyNames ;;
  let key_names := key_names driver in
  if negb (Z.of_nat (length some_keys) =? Z.of_nat (length key_names) - 1)%Z
  then raise (InvalidArgumentsError key_count_msg)
  else
    futures <- get_band_futures 0 rgba_values ;;
    let band_items := combine rgba_values (combine stretch_ranges_ futures) in
    band_loop (slots futures) band_items [].

End Bands.

(** rgba.py, lines 20-110 *)
Definition rgba (some_keys : keys) (rgba_values : list string)
    (tile_xyz : option xyz_t) (stretch_ranges : option ListOfRanges)
    (tile_size : option size_t) : M BinaryIO :=
  let stretch_ranges := supplied_ranges stretch_ranges in
  if negb (length stretch_ranges =? 4)%nat
  then raise (InvalidArgumentsError stretch_count_msg)
  else
    let stretch_ranges_ :=
      map or_absent stretch_ranges in
    if negb (length rgba_values =? 4)%nat
    then raise (InvalidArgumentsError rgba_count_msg)
    else
      let tile_size_ := effective_tile_size settings tile_size in
      out_arrays <- with_connect
                      (connected some_keys tile_xyz tile_size_
                                 rgba_values stretch_ranges_) ;;
      out <- lift (ma_stack out_arrays) ;;
      lift (array_to_png out).

End Handler.

(** ** Reference definitions used to state the properties *)

(** The two substitutions of lines 95-99, before the comparison of line 101. *)
Definition substituted (md : metadata) (ov : stretch_override) : result (Q * Q) :=
  let percentiles := metadata_percentiles md in
  rbind (match fst ov with
         | Some s => get_stretch_scale s percentiles
         | None => Ok (fst (md_range md))
         end) (fun low =>
  rbind (match snd ov with
         | Some s => get_stretch_scale s percentiles
         | None => Ok (snd (md_range md))
         end) (fun high => Ok (low, high))).

(** The channel the handler is meant to produce for one band: the band's
    raster, quantized with the band's resolved stretch range. *)
Definition band_channel (driver : Driver) (some_keys : keys)
    (tile_xyz : option xyz_t) (tile_size_ : size_t)
    (band_key : string) (ov : stretch_override) : result channel :=
  let band_keys := some_keys ++ [band_key] in
  rbind (get_metadata driver band_keys) (fun md =>
  rbind (resolve_stretch_range md ov) (fun r =>
  rbind (get_tile_data driver band_keys tile_xyz tile_size_) (fun data =>
  Ok (to_uint8 data (fst r) (snd r))))).

(** The futures the list comprehension of line 80 creates, numbered in the
    order of [rgba_values]. *)
Fixpoint band_futures (some_keys : keys) (next : nat) (rgba_values : list string)
  : list Future :=
  match rgba_values with
  | [] => []
  | key :: rest =>
      {| fut_id := next; fut_keys := some_keys ++ [key] |}
        :: band_futures some_keys (S next) rest
  end.

(** The channels of a list of bands, band by band in the order given. *)
Fixpoint band_channels (driver : Driver) (some_keys : keys)
    (tile_xyz : option xyz_t) (tile_size_ : size_t)
    (bands : list (string * stretch_override)) : result (list channel) :=
  match bands with
  | [] => Ok []
  | (band_key, ov) :: rest =>
      rbind (band_channel driver some_keys tile_xyz tile_size_ band_key ov)
        (fun c =>
      rbind (band_channels driver some_keys tile_xyz tile_size_ rest)
        (fun cs => Ok (c :: cs)))
  end.

(** Events of the connection itself, as opposed to what happens inside it. *)
Definition connection_event (ev : event) : bool :=
  match ev with
  | EvConnect | EvDisconnect => true
  | _ => false
  end.

(** Events that retrieve data through the driver. *)
Definition retrieval_event (ev : event) : bool :=
  match ev with
  | EvGetTileData _ | EvGetMetadata _ | EvResult _ => true
  | _ => false
  end.

(** Events the body of the [with] block may log: anything but entering
    and leaving the connection, and quantizer calls only on a range whose
    upper bound is not below its lower bound. *)
Definition inner_event (ev : event) : Prop :=
  connection_event ev = false /\
  match ev with
  | EvToUint8 low high => low <= high
  | _ => True
  end.

(** A computation that raises [InvalidArgumentsError] without having
    entered the driver connection. *)
Definition raises_before_connecting {A : Type} (m : M A) : Prop :=
  (exists msg, outcome m = Err (InvalidArgumentsError msg)) /\
  ~ In EvConnect (trace m).

(** ** A small catalog to run the handler on *)

Definition sample_metadata : metadata :=
  {| md_range := (0, 100); md_percentiles := Some [10; 20; 80] |}.

Definition px (v : Q) : pixel Q := {| px_value := v; px_valid := true |}.

Definition sample_tile (k : keys) : result tile :=
  match k with
  | [_; "b1"] => Ok [[px 10; px 50]]
  | [_; "b2"] => Ok [[px 20; px 50]]
  | [_; "b3"] => Ok [[px 30; px 50]]
  | [_; "b4"] => Ok [[px 40; px 50]]
  | _ => Err (DatasetNotFoundError "no dataset")
  end.

Definition sample_driver : Driver :=
  {| key_names := ["date"; "band"];
     get_metadata := fun _ => Ok sample_metadata;
     get_tile_data := fun k _ _ => sample_tile k |}.

Definition sample_settings : Settings :=
  {| DEFAULT_TILE_SIZE := (256, 256)%Z |}.

(** The handler on the sample catalog, with the stacked array itself
    standing for its encoding. *)
Definition sample_rgba (finished : list nat) (some_keys : keys)
    (rgba_values : list string) (stretch_ranges : option ListOfRanges)
  : M image :=
  rgba image (fun out => Ok out) sample_settings sample_driver finished
       some_keys rgba_values None stretch_ranges None.

Definition four_bands : list string := ["b1"; "b2"; "b3"; "b4"].

(** A request whose red band has the same absolute lower and upper bound. *)
Definition degenerate_ranges : option ListOfRanges :=
  Some [Some (Some (Absolute 5), Some (Absolute 5)); None; None; None].

(** A request whose red band has its upper bound below its lower bound. *)
Definition inverted_ranges : option ListOfRanges :=
  Some [Some (Some (Absolute 9), Some (Absolute 3)); None; None; None].

(** * server/rgba.py: the route in front of the handler *)

Module server.

(** [s.split(sep)] for a one-character separator: the pieces between the
    occurrences of [sep], empty pieces included; never the empty list. *)
Fixpoint split (sep : ascii) (s : string) : list string :=
  match s with
  | EmptyString => [EmptyString]
  | String c rest =>
      if Ascii.eqb c sep
      then EmptyString :: split sep rest
      else match split sep rest with
           | seg :: segs => String c seg :: segs
           | [] => [String c EmptyString]
           end
  end.

(** Truth value of a string: false for the empty string only. *)
Definition truthy (s : string) : bool :=
  match s with
  | EmptyString => false
  | String _ _ => true
  end.

(** server/rgba.py, line 149: [[key for key in keys.split("/") if key]] *)
Definition path_keys (keys : string) : list string :=
  filter truthy (split "/" keys).

(** What [RGBAOptionSchema.load] returns: the four band keys, the four
    optional stretch ranges ([missing=None]) and the optional tile size. *)
Record RGBAOptions : Type := {
  r : string;
  g : string;
  b : string;
  a : string;
  r_range : option stretch_override;
  g_range : option stretch_override;
  b_range : option stretch_override;
  a_range : option stretch_override;
  tile_size : option size_t
}.

(** [flask.send_file(image, mimetype=...)] *)
Record Response (BinaryIO : Type) : Type := {
  response_file : BinaryIO;
  response_mimetype : string
}.

Arguments response_file {BinaryIO} _.
Arguments response_mimetype {BinaryIO} _.

Section Routes.

Local Open Scope handler_scope.

Variable BinaryIO : Type.
Variable array_to_png : image -> result BinaryIO.
Variable settings : Settings.
Variable driver : Driver.
Variable finished : list nat.

(** The outcome of [option_schema.load(request.args)]: the loaded options,
    or the exception the schema raises on an invalid query. *)
Variable loaded : result RGBAOptions.

(** server/rgba.py, lines 141-169 *)
Definition _get_rgba_image (keys : string) (tile_xyz : option xyz_t)
  : M (Response BinaryIO) :=
  options <- lift loaded ;;
  let some_keys := path_keys keys in
  let rgba_values := [r options; g options; b options; a options] in
  let stretch_ranges :=
    [r_range options; g_range options; b_range options; a_range options] in
  image <- rgba BinaryIO array_to_png settings driver finished
             some_keys rgba_values tile_xyz (Some stretch_ranges)
             (tile_size options) ;;
  ret {| response_file := image; response_mimetype := "image/png" |}.

(** server/rgba.py, lines 113-138 *)
Definition get_rgba (tile_z tile_y tile_x : Z) (keys : string)
  : M (Response BinaryIO) :=
  let tile_xyz := (tile_x, tile_y, tile_z) in
  _get_rgba_image keys (Some tile_xyz).

End Routes.

(** ** The schema's pre-load step *)

Section Schema.

(** JSON values and [json.loads]: [None] stands for [JSONDecodeError]. *)
Variable JSON : Type.
Variable json_loads : string -> option JSON.

(** A value of the query dictionary: a string of the query as received, or
    what [json.loads] made of it. *)
Inductive field_value : Type :=
| Raw (s : string)
| Decoded (j : JSON).

(** The dictionary [data], by key. *)
Definition query : Type := string -> option field_value.

Definition update (data : query) (var : string) (v : field_value) : query :=
  fun k => if String.eqb k var then Some v else data k.

Definition json_fields : list string :=
  ["r_range"; "g_range"; "b_range"; "a_range"; "tile_size"].

Definition decode_error_msg (var : string) : string :=
  "Could not decode value for " ++ var ++ " as JSON".

(** server/rgba.py, lines 97-105: the loop over the JSON-valued fields.
    The result is the dictionary, or the message of the [ValidationError].
    Each field is visited once, so the value read for it is still a string
    of the query; a decoded value is left alone. *)
Fixpoint decode_fields (vars : list string) (data : query) : string + query :=
  match vars with
  | [] => inr data
  | var :: rest =>
      match data var with
      | Some (Raw val) =>
          if truthy val
          then match json_loads val with
               | Some j => decode_fields rest (update data var (Decoded j))
               | None => inl (decode_error_msg var)
               end
          else decode_fields rest data
      | Some (Decoded _) => decode_fields rest data
      | None => decode_fields rest data
      end
  end.

(** server/rgba.py, lines 94-106, on the query arguments [args]. *)
Definition process_ranges (args : string -> option string) : string + query :=
  decode_fields json_fields (fun k => option_map Raw (args k)).

(** A field whose value has to pass [json.loads]: present and not empty. *)
Definition to_decode (args : string -> option string) (var : string)
  : option string :=
  match args var with
  | Some val => if truthy val then Some val else None
  | None => None
  end.

End Schema.

Arguments Raw {JSON} s.
Arguments Decoded {JSON} j.

(** A URL path segment that can stand for a key: not empty, no slash. *)
Fixpoint slash_free (s : string) : bool :=
  match s with
  | EmptyString => true
  | String c rest => negb (Ascii.eqb c "/") && slash_free rest
  end.

Definition key_segment (s : string) : Prop :=
  truthy s = true /\ slash_free s = true.

End server.

(** * profile.py: the tracing wrapper around the handler *)

Module profile.

(** What the wrapper does to the X-Ray recorder. *)
Inductive segment_event : Type :=
| EvBeginSubsegment (description : string)
| EvEndSubsegment.

(** The recorder of [aws_xray_sdk.core]: either call may raise. *)
Record Recorder : Type := {
  begin_subsegment : string -> result unit;
  end_subsegment : result unit
}.

(** profile.py, lines 13-24, applied to a body: [with trace(description):
    body].  With profiling enabled the subsegment is begun inside the [try],
    the body runs at the [yield] when beginning succeeded, and the [finally]
    ends the subsegment; an exception raised by [end_subsegment] replaces
    whatever was being returned or raised.  The log lists the recorder's
    events ([inl]) and the body's own ([inr]) in program order. *)
Definition trace {E A : Type} (XRAY_PROFILE : bool) (xray_recorder : Recorder)
    (description : string) (body : list E * result A)
  : list (segment_event + E) * result A :=
  if XRAY_PROFILE then
    match begin_subsegment xray_recorder description with
    | Ok _ =>
        (inl (EvBeginSubsegment description) :: map inr (fst body)
           ++ [inl EvEndSubsegment],
         match end_subsegment xray_recorder with
         | Ok _ => snd body
         | Err e' => Err e'
         end)
    | Err e =>
        ([inl (EvBeginSubsegment description); inl EvEndSubsegment],
         match end_subsegment xray_recorder with
         | Ok _ => Err e
         | Err e' => Err e'
         end)
    end
  else (map inr (fst body), snd body).

(** The body's own events in a log of the wrapper. *)
Definition body_events {E : Type} (log : list (segment_event + E)) : list E :=
  flat_map (fun ev => match ev with inl _ => [] | inr x => [x] end) log.

Definition recorder_events {E : Type} (log : list (segment_event + E))
  : list segment_event :=
  flat_map (fun ev => match ev with inl x => [x] | inr _ => [] end) log.

End profile.

(** handlers/rgba.py, line 19: the handler as exported, wrapped in
    [@trace("rgba_handler")]. *)
Definition rgba_handler (XRAY_PROFILE : bool) (xray_recorder : profile.Recorder)
    (BinaryIO : Type) (array_to_png : image -> result BinaryIO)
    (settings : Settings) (driver : Driver) (finished : list nat)
    (some_keys : keys) (rgba_values : list string) (tile_xyz : option xyz_t)
    (stretch_ranges : option ListOfRanges) (tile_size : option size_t)
  : list (profile.segment_event + event) * result BinaryIO :=
  profile.trace XRAY_PROFILE xray_recorder "rgba_handler"
    (rgba BinaryIO array_to_png settings driver finished some_keys rgba_values
          tile_xyz stretch_ranges tile_size).

(** A recorder whose calls succeed, and one that cannot end a subsegment. *)
Definition sample_recorder : profile.Recorder :=
  {| profile.begin_subsegment := fun _ => Ok tt;
     profile.end_subsegment := Ok tt |}.

Definition sample_options : server.RGBAOptions :=
  {| server.r := "b1"; server.g := "b2"; server.b := "b3"; server.a := "b4";
     server.r_range := None; server.g_range := Some (None, Some (Percentile 2));
     server.b_range := None; server.a_range := None;
     server.tile_size := None |}.

(** A recorder that cannot end a subsegment. *)
Definition failing_recorder : profile.Recorder :=
  {| profile.begin_subsegment := fun _ => Ok tt;
     profile.end_subsegment := Err (OtherError "no open subsegment") |}.

(** * scripts/optimize_rasters.py: the conversion script *)

Module optimize_rasters.

(** A path, known by its string [str(path)]. *)
Definition Path : Type := string.

(** A block window of a raster: column and row offset, width and height. *)
Definition Window : Type := (Z * Z * Z * Z)%type.

Definition IN_MEMORY_THRESHOLD : Z := 10980 * 10980.

(** [COG_PROFILE['blockxsize']] and [COG_PROFILE['blockysize']] *)
Definition blockxsize : Z := 256.
Definition blockysize : Z := 256.

Inductive Resampling : Type :=
| average
| nearest
| bilinear
| cubic.

(** The dictionary [RESAMPLING_METHODS]. *)
Definition RESAMPLING_METHODS (name : string) : option Resampling :=
  if String.eqb name "average" then Some average
  else if String.eqb name "nearest" then Some nearest
  else if String.eqb name "bilinear" then Some bilinear
  else if String.eqb name "cubic" then Some cubic
  else None.

Inductive script_exn : Type :=
| Abort (message : option string)   (* [click.Abort] *)
| MathDomainError                   (* [ValueError] of [math.log2] *)
| KeyError (key : string)
| LibraryError (message : string).  (* raised by [mkdir] or [rasterio.open] *)

(** What the script does to the terminal, the file system and the rasters,
    in program order.  The progress bar's own output is left out. *)
Inductive script_event : Type :=
| EvEcho (message : string)
| EvMkdir (folder : Path)
| EvOpen (input_file : Path)
| EvCreate (in_memory : bool)
| EvRead (w : Window)
| EvWrite (w : Window)
| EvDatasetMask (w : Window)
| EvWriteMask (w : Window)
| EvBuildOverviews (overviews : list Z) (rs_method : Resampling)
| EvUpdateTags (rs_method : Resampling)
| EvCopy (output_file : Path).

(** What the script finds around it: the order of [pathlib] paths,
    [path.with_suffix('.tif').name], [folder / name], which paths are files
    when the script starts, whether [mkdir(exist_ok=True)] succeeds, and for
    each input what [rasterio.open] gives (the raster's width and height,
    or an exception) and which block windows the tiled copy has.  Working
    on an opened raster and writing the result are taken to succeed. *)
Record World : Type := {
  path_leb : Path -> Path -> bool;
  tif_name : Path -> string;
  joinpath : Path -> string -> Path;
  is_file : Path -> bool;
  mkdir : Path -> option script_exn;
  raster_open : Path -> script_exn + (Z * Z);
  block_windows : Z -> Z -> list Window
}.

(** [sorted(...)], by insertion. *)
Fixpoint insert_sorted (leb : Path -> Path -> bool) (x : Path) (l : list Path)
  : list Path :=
  match l with
  | [] => [x]
  | y :: rest =>
      if leb x y then x :: l else y :: insert_sorted leb x rest
  end.

Definition sorted (leb : Path -> Path -> bool) (l : list Path) : list Path :=
  fold_right (insert_sorted leb) [] l.

(** Line 82: [sorted(set(itertools.chain.from_iterable(raster_files)))] *)
Definition raster_files_flat (world : World) (raster_files : list (list Path))
  : list Path :=
  sorted (path_leb world) (nodup string_dec (concat raster_files)).

(** Lines 138-141: [math.ceil(math.log2(max(height // 256, width // 256)))].
    [math.log2] raises on an argument that is not positive; on the block
    counts of a raster the floating-point logarithm rounds up to the
    integer logarithm [Z.log2_up]. *)
Definition max_overview_level (height width : Z) : script_exn + Z :=
  let blocks := Z.max (height / blockysize) (width / blockxsize) in
  if (blocks <=? 0)%Z then inl MathDomainError else inr (Z.log2_up blocks).

(** Line 143: [[2 ** j for j in range(1, max_overview_level + 1)]] *)
Definition overview_factors (max_overview_level : Z) : list Z :=
  map (fun j => (2 ^ Z.of_nat j)%Z) (seq 1 (Z.to_nat max_overview_level)).

(** What changes from one input file to the next: the files that exist and
    the variable [in_memory]. *)
Record state : Type := {
  files : Path -> bool;
  in_memory : option bool
}.

Definition exists_msg (output_file : Path) : string :=
  "Output file " ++ output_file ++ " exists (use --overwrite to ignore)".

Definition not_a_file_msg (f : Path) : string :=
  "Input raster " ++ f ++ " is not a file".

Section Script.

Variable world : World.
Variable output_folder : Path.
Variable overwrite : bool.
Variable resampling_method : string.

Definition output_of (input_file : Path) : Path :=
  joinpath world output_folder (tif_name world input_file).

(** Lines 117-118: where the working raster is kept, when the input can be
    opened: as asked for, or by the input's size when nothing was asked or
    decided yet. *)
Definition decided (st : state) (input_file : Path) : option bool :=
  match raster_open world input_file with
  | inl _ => None
  | inr (width, height) =>
      Some match in_memory st with
           | None => (width * height <? IN_MEMORY_THRESHOLD)%Z
           | Some given => given
           end
  end.

(** Lines 131-135: the four calls made for each block window. *)
Definition copy_blocks (windows : list Window) : list script_event :=
  flat_map (fun w => [EvRead w; EvWrite w; EvDatasetMask w; EvWriteMask w])
           windows.

(** Lines 103-149: the body of the loop for one input file. *)
Definition convert (st : state) (input_file : Path)
  : list script_event * (script_exn + state) :=
  let output_file := output_of input_file in
  if negb overwrite && files st output_file
  then ([EvEcho ""; EvEcho (exists_msg output_file)], inl (Abort None))
  else
    match raster_open world input_file with
    | inl e => ([EvOpen input_file], inl e)
    | inr (width, height) =>
        let in_memory_ :=
          match in_memory st with
          | None => (width * height <? IN_MEMORY_THRESHOLD)%Z
          | Some given => given
          end in
        let log :=
          EvOpen input_file :: EvCreate in_memory_
            :: copy_blocks (block_windows world width height) in
        match max_overview_level height width with
        | inl e => (log, inl e)
        | inr level =>
            match RESAMPLING_METHODS resampling_method with
            | None => (log, inl (KeyError resampling_method))
            | Some rs_method =>
                (log ++ [EvBuildOverviews (overview_factors level) rs_method;
                         EvUpdateTags rs_method;
                         EvCopy output_file],
                 inr {| files := fun p =>
                                   if String.eqb p output_file then true
                                   else files st p;
                        in_memory := Some in_memory_ |})
            end
        end
    end.

(** Lines 102-149: the loop over the input files. *)
Fixpoint convert_all (st : state) (input_files : list Path)
  : list script_event * option script_exn :=
  match input_files with
  | [] => ([], None)
  | input_file :: rest =>
      match convert st input_file with
      | (log, inl e) => (log, Some e)
      | (log, inr st') =>
          let (log', r) := convert_all st' rest in (log ++ log', r)
      end
  end.

(** Lines 63-149 *)
Definition optimize_rasters (raster_files : list (list Path))
    (in_memory : option bool) : list script_event * option script_exn :=
  let raster_files_flat := raster_files_flat world raster_files in
  match raster_files_flat with
  | [] => ([EvEcho "No files given"], None)
  | _ :: _ =>
      match find (fun f => negb (is_file world f)) raster_files_flat with
      | Some f => ([], Some (Abort (Some (not_a_file_msg f))))
      | None =>
          match mkdir world output_folder with
          | Some e => ([EvMkdir output_folder], Some e)
          | None =>
              let (log, r) :=
                convert_all {| files := is_file world;
                               in_memory := in_memory |} raster_files_flat in
              (EvMkdir output_folder :: EvEcho "" :: log, r)
          end
      end
  end.

End Script.

(** The output files written and the working rasters created in a log. *)
Definition copies (log : list script_event) : list Path :=
  flat_map (fun ev => match ev with EvCopy p => [p] | _ => [] end) log.

Definition creations (log : list script_event) : list bool :=
  flat_map (fun ev => match ev with EvCreate m => [m] | _ => [] end) log.

(** A small world: two inputs that flatten to the same output name, a
    large raster and one smaller than a block. *)
Definition sample_world : World :=
  {| path_leb := String.leb;
     tif_name := fun p =>
       if String.eqb p "in/a.tiff" then "a.tif"
       else if String.eqb p "other/a.jp2" then "a.tif"
       else if String.eqb p "in/b.tiff" then "b.tif"
       else "tiny.tif";
     joinpath := fun folder name => (folder ++ "/" ++ name)%string;
     is_file := fun p =>
       String.eqb p "in/a.tiff" || String.eqb p "other/a.jp2"
       || String.eqb p "in/b.tiff" || String.eqb p "in/tiny.tiff"
       || String.eqb p "out/b.tif";
     mkdir := fun _ => None;
     raster_open := fun p =>
       if String.eqb p "in/a.tiff" then inr (1000, 800)%Z
       else if String.eqb p "other/a.jp2" then inr (1000, 800)%Z
       else if String.eqb p "in/b.tiff" then inr (20000, 20000)%Z
       else if String.eqb p "in/tiny.tiff" then inr (100, 200)%Z
       else inl (LibraryError "not a raster");
     block_windows := fun _ _ => [(0, 0, 256, 256)%Z] |}.

End optimize_rasters.

(** A query and a toy [json.loads] that knows two arrays. *)
Definition sample_json_loads (s : string) : option (list Z) :=
  if String.eqb s "[0,1]" then Some [0; 1]%Z
  else if String.eqb s "[256,256]" then Some [256; 256]%Z
  else None.

Definition sample_args (k : string) : option string :=
  if String.eqb k "r" then Some "b1"
  else if String.eqb k "r_range" then Some "[0,1]"
  else if String.eqb k "g_range" then Some ""
  else if String.eqb k "tile_size" then Some "[256,256]"
  else None.


(** * Properties *)

(** ** Comparison of numbers *)

Lemma Qltb_lt (x y : Q) : Qltb x y = true <-> x < y.
Proof.
  unfold Qltb. rewrite negb_true_iff, <- not_true_iff_false, Qle_bool_iff.
  split; [apply Qnot_le_lt | apply Qlt_not_le].
Qed.

Lemma Qltb_ge (x y : Q) : Qltb x y = false <-> y <= x.
Proof.
  unfold Qltb. rewrite negb_false_iff. apply Qle_bool_iff.
Qed.

(** ** The stretch range resolver *)

(** The comparison is made on the bounds as they stand after both
    substitutions, and raises exactly when the upper one is below the
    lower one. *)
Lemma resolve_after_substitution (md : metadata) (ov : stretch_override) :
  resolve_stretch_range md ov =
  rbind (substituted md ov) (fun r =>
    if Qltb (snd r) (fst r)
    then Err (InvalidArgumentsError upper_bound_msg)
    else Ok r).
Proof.
  destruct ov as [[smin|] [smax|]]; unfold resolve_stretch_range, substituted;
    cbn [fst snd];
    repeat match goal with
           | |- context [get_stretch_scale ?s ?t] =>
               destruct (get_stretch_scale s t); cbn [rbind fst snd]
           end;
    try reflexivity; destruct (md_range md); reflexivity.
Qed.

Lemma resolve_ok_ordered (md : metadata) (ov : stretch_override) (low high : Q) :
  resolve_stretch_range md ov = Ok (low, high) -> low <= high.
Proof.
  rewrite resolve_after_substitution.
  destruct (substituted md ov) as [[l h]|e]; cbn [rbind fst snd]; [|discriminate].
  destruct (Qltb h l) eqn:E; [discriminate|].
  intros H; injection H as <- <-. now apply Qltb_ge.
Qed.

Lemma resolve_no_override (md : metadata) :
  fst (md_range md) <= snd (md_range md) ->
  resolve_stretch_range md (None, None) = Ok (md_range md).
Proof.
  intros H. unfold resolve_stretch_range. cbn [rbind].
  apply Qltb_ge in H. rewrite H. reflexivity.
Qed.

(** C3.  When both bounds of a band's stretch override are absent, the
    resolved stretch range is the dataset's default range: the lower bound
    is [range.min], the upper bound is [range.max], and nothing else is
    substituted. *)
Theorem resolve_absent_is_default (md : metadata) :
  fst (md_range md) <= snd (md_range md) ->
  resolve_stretch_range md (None, None) = Ok (md_range md).
Proof. exact (resolve_no_override md). Qed.

Lemma resolve_absent_is_default_witness :
  fst (md_range sample_metadata) <= snd (md_range sample_metadata) /\
  resolve_stretch_range sample_metadata (None, None) = Ok (0, 100).
Proof.
  split.
  - vm_compute. discriminate.
  - apply (resolve_absent_is_default sample_metadata). vm_compute. discriminate.
Defined.

(** C4.  A percentile bound [p] resolves to entry [p] of the dataset's
    percentile table, as lower and as upper bound, whatever the other
    bound is (absent, absolute or a percentile itself): the resolution
    succeeds with that entry whenever the other bound resolves and the two
    are in order, and a resolved range never holds anything else for [p].
    With an empty table a percentile bound makes the resolution fail with
    an error that reaches the caller, whatever the other bound is. *)
Theorem resolve_percentile_bound (md : metadata) (p : nat) (other : option scale) :
  (forall low high,
      resolve_stretch_range md (Some (Percentile p), other) = Ok (low, high) ->
      nth_error (metadata_percentiles md) p = Some low) /\
  (forall low high,
      resolve_stretch_range md (other, Some (Percentile p)) = Ok (low, high) ->
      nth_error (metadata_percentiles md) p = Some high) /\
  (forall v,
      nth_error (metadata_percentiles md) p = Some v ->
      v <= snd (md_range md) ->
      resolve_stretch_range md (Some (Percentile p), None)
      = Ok (v, snd (md_range md))) /\
  (forall v,
      nth_error (metadata_percentiles md) p = Some v ->
      fst (md_range md) <= v ->
      resolve_stretch_range md (None, Some (Percentile p))
      = Ok (fst (md_range md), v)) /\
  (forall v high,
      nth_error (metadata_percentiles md) p = Some v ->
      match other with
      | Some s => get_stretch_scale s (metadata_percentiles md)
      | None => Ok (snd (md_range md))
      end = Ok high ->
      v <= high ->
      resolve_stretch_range md (Some (Percentile p), other) = Ok (v, high)) /\
  (forall v low,
      nth_error (metadata_percentiles md) p = Some v ->
      match other with
      | Some s => get_stretch_scale s (metadata_percentiles md)
      | None => Ok (fst (md_range md))
      end = Ok low ->
      low <= v ->
      resolve_stretch_range md (other, Some (Percentile p)) = Ok (low, v)) /\
  (metadata_percentiles md = [] ->
   resolve_stretch_range md (Some (Percentile p), other)
   = Err (ConfigurationError percentile_msg) /\
   resolve_stretch_range md (other, Some (Percentile p))
   = Err (ConfigurationError percentile_msg)).
Proof.
  repeat split.
  - intros low high. rewrite resolve_after_substitution.
    unfold substituted. cbn [fst snd get_stretch_scale].
    destruct (nth_error (metadata_percentiles md) p) as [v|];
      cbn [rbind]; [|discriminate].
    destruct other as [s|];
      [destruct (get_stretch_scale s (metadata_percentiles md))|];
      cbn [rbind fst snd]; try discriminate;
      match goal with |- context [Qltb ?a ?b] => destruct (Qltb a b) end;
      try discriminate; intros H; injection H as <- <-; reflexivity.
  - intros low high. rewrite resolve_after_substitution.
    unfold substituted. cbn [fst snd get_stretch_scale].
    destruct other as [s|];
      [destruct (get_stretch_scale s (metadata_percentiles md))|];
      cbn [rbind fst snd]; try discriminate;
      (destruct (nth_error (metadata_percentiles md) p) as [v|];
       cbn [rbind fst snd]; [|discriminate]);
      match goal with |- context [Qltb ?a ?b] => destruct (Qltb a b) end;
      try discriminate; intros H; injection H as <- <-; reflexivity.
  - intros v Hv Hle. rewrite resolve_after_substitution.
    unfold substituted. cbn [fst snd get_stretch_scale]. rewrite Hv.
    cbn [rbind fst snd]. apply Qltb_ge in Hle. rewrite Hle. reflexivity.
  - intros v Hv Hle. rewrite resolve_after_substitution.
    unfold substituted. cbn [fst snd get_stretch_scale]. rewrite Hv.
    cbn [rbind fst snd]. apply Qltb_ge in Hle. rewrite Hle. reflexivity.
  - intros v high Hv Hother Hle. rewrite resolve_after_substitution.
    unfold substituted. cbn [fst snd get_stretch_scale]. rewrite Hv.
    cbn [rbind]. rewrite Hother. cbn [rbind fst snd].
    apply Qltb_ge in Hle. rewrite Hle. reflexivity.
  - intros v low Hv Hother Hle. rewrite resolve_after_substitution.
    unfold substituted. cbn [fst snd]. rewrite Hother.
    cbn [rbind get_stretch_scale]. rewrite Hv. cbn [rbind fst snd].
    apply Qltb_ge in Hle. rewrite Hle. reflexivity.
  - rewrite resolve_after_substitution. unfold substituted.
    cbn [fst snd get_stretch_scale]. rewrite H.
    destruct p; reflexivity.
  - rewrite resolve_after_substitution. unfold substituted.
    cbn [fst snd get_stretch_scale]. rewrite H.
    destruct other as [[v|q]|]; cbn [get_stretch_scale rbind];
      try (destruct q); destruct p; reflexivity.
Qed.

Lemma resolve_percentile_bound_witness :
  resolve_stretch_range sample_metadata (None, Some (Percentile 2)) = Ok (0, 80) /\
  resolve_stretch_range sample_metadata
    (Some (Percentile 0), Some (Percentile 2)) = Ok (10, 80) /\
  resolve_stretch_range sample_metadata
    (Some (Absolute 15), Some (Percentile 1)) = Ok (15, 20) /\
  resolve_stretch_range {| md_range := (0, 100); md_percentiles := None |}
    (Some (Absolute 3), Some (Percentile 2))
  = Err (ConfigurationError percentile_msg).
Proof.
  split; [|split; [|split]].
  - destruct (resolve_percentile_bound sample_metadata 2 None)
      as (_ & _ & _ & H & _).
    apply (H 80); [reflexivity | vm_compute; discriminate].
  - destruct (resolve_percentile_bound sample_metadata 0 (Some (Percentile 2)))
      as (_ & _ & _ & _ & H & _).
    apply (H 10 80); [reflexivity | reflexivity | vm_compute; discriminate].
  - destruct (resolve_percentile_bound sample_metadata 1 (Some (Absolute 15)))
      as (_ & _ & _ & _ & _ & H & _).
    apply (H 20 15); [reflexivity | reflexivity | vm_compute; discriminate].
  - destruct (resolve_percentile_bound
                {| md_range := (0, 100); md_percentiles := None |} 2
                (Some (Absolute 3))) as (_ & _ & _ & _ & _ & _ & H).
    apply H. reflexivity.
Defined.

(** ** The quantizer *)

Lemma round_nearest_mono (x y : Q) :
  x <= y -> (round_nearest x <= round_nearest y)%Z.
Proof.
  intros H. unfold round_nearest. apply Qfloor_resp_le. lra.
Qed.

Lemma round_nearest_close (x : Q) :
  x - (1 # 2) < inject_Z (round_nearest x) /\
  inject_Z (round_nearest x) <= x + (1 # 2).
Proof.
  unfold round_nearest. split.
  - pose proof (Qlt_floor (x + (1 # 2))) as H.
    rewrite inject_Z_plus in H. change (inject_Z 1) with 1 in H. lra.
  - apply Qfloor_le.
Qed.

Lemma clip_bounds (x : Q) : 0 <= clip x 0 255 /\ clip x 0 255 <= 255.
Proof.
  unfold clip.
  destruct (Qltb x 0) eqn:E0; [lra|].
  destruct (Qltb 255 x) eqn:E1; [lra|].
  apply Qltb_ge in E0, E1. lra.
Qed.

Lemma clip_mono (x y : Q) : x <= y -> clip x 0 255 <= clip y 0 255.
Proof.
  intros H. unfold clip.
  destruct (Qltb x 0) eqn:X0; destruct (Qltb y 0) eqn:Y0;
    destruct (Qltb 255 x) eqn:X1; destruct (Qltb 255 y) eqn:Y1;
    repeat match goal with
           | E : Qltb _ _ = true |- _ => apply Qltb_lt in E
           | E : Qltb _ _ = false |- _ => apply Qltb_ge in E
           end; lra.
Qed.

Lemma clip_inside (x : Q) : 0 <= x -> x <= 255 -> clip x 0 255 == x.
Proof.
  intros H0 H1. unfold clip.
  destruct (Qltb x 0) eqn:E0; [apply Qltb_lt in E0; lra|].
  destruct (Qltb 255 x) eqn:E1; [apply Qltb_lt in E1; lra|].
  reflexivity.
Qed.

Lemma remap_mono (low high v1 v2 : Q) :
  low < high -> v1 <= v2 ->
  (v1 - low) / (high - low) * 255 <= (v2 - low) / (high - low) * 255.
Proof.
  intros Hr Hv.
  assert (0 < / (high - low)) as Hd by (apply Qinv_lt_0_compat; lra).
  unfold Qdiv.
  apply Qmult_le_compat_r; [|lra].
  apply Qmult_le_compat_r; [lra|]. now apply Qlt_le_weak.
Qed.

Lemma round_nearest_of_Z (x : Q) (z : Z) : x == inject_Z z -> round_nearest x = z.
Proof.
  intros H. unfold round_nearest.
  assert (x + (1 # 2) == inject_Z z + (1 # 2)) as E by (rewrite H; reflexivity).
  rewrite (Qfloor_comp _ _ E).
  pose proof (Qfloor_le (inject_Z z + (1 # 2))) as Hle.
  pose proof (Qlt_floor (inject_Z z + (1 # 2))) as Hlt.
  set (f := Qfloor (inject_Z z + (1 # 2))) in *.
  rewrite inject_Z_plus in Hlt. change (inject_Z 1) with 1 in Hlt.
  assert (inject_Z f <= inject_Z z + (1 # 2)) as A by exact Hle.
  assert (inject_Z z - (1 # 2) < inject_Z f) as B by lra.
  assert (inject_Z f < inject_Z (z + 1)) as A'
      by (rewrite inject_Z_plus; change (inject_Z 1) with 1; lra).
  assert (inject_Z z < inject_Z (f + 1)) as B'
      by (rewrite inject_Z_plus; change (inject_Z 1) with 1; lra).
  rewrite <- Zlt_Qlt in A', B'. lia.
Qed.

(** C8.  For a range with [low < high] the quantizer yields the clipped
    linear remap rounded to the nearest integer: the result is a channel
    value in [0, 255] at distance at most one half from
    [clip((v - low) / (high - low) * 255, 0, 255)]; it is monotonic in the
    pixel value; [low] maps to 0 and [high] maps to 255. *)
Theorem quantize_linear_remap (low high : Q) :
  low < high ->
  (forall v,
      let x := clip ((v - low) / (high - low) * 255) 0 255 in
      quantize low high v = round_nearest x /\
      x - (1 # 2) < inject_Z (quantize low high v) /\
      inject_Z (quantize low high v) <= x + (1 # 2) /\
      (0 <= quantize low high v <= 255)%Z) /\
  (forall v1 v2, v1 < v2 -> (quantize low high v1 <= quantize low high v2)%Z) /\
  quantize low high low = 0%Z /\
  quantize low high high = 255%Z.
Proof.
  intros Hr. repeat split.
  - apply round_nearest_close.
  - apply round_nearest_close.
  - unfold quantize. change 0%Z with (round_nearest 0).
    apply round_nearest_mono, clip_bounds.
  - unfold quantize. change 255%Z with (round_nearest 255).
    apply round_nearest_mono, clip_bounds.
  - intros v1 v2 Hv. unfold quantize.
    apply round_nearest_mono, clip_mono, remap_mono; [assumption|].
    now apply Qlt_le_weak.
  - unfold quantize. apply round_nearest_of_Z.
    assert ((low - low) / (high - low) * 255 == 0) as E
        by (unfold Qdiv; setoid_replace (low - low) with 0 by ring; ring).
    rewrite clip_inside; rewrite E; [reflexivity | lra | lra].
  - unfold quantize. apply round_nearest_of_Z.
    assert ((high - low) / (high - low) * 255 == 255) as E
        by (field; lra).
    rewrite clip_inside; rewrite E; [reflexivity | lra | lra].
Qed.

Lemma quantize_linear_remap_witness :
  0 < 100 /\
  quantize 0 100 50 = 128%Z /\
  (quantize 0 100 20 <= quantize 0 100 50)%Z /\
  quantize 0 100 0 = 0%Z /\
  quantize 0 100 100 = 255%Z.
Proof.
  assert (0 < 100) as Hr by reflexivity.
  destruct (quantize_linear_remap 0 100 Hr) as (Hv & Hm & H0 & H1).
  split; [exact Hr|]. split; [|split; [|split]].
  - destruct (Hv 50) as (E & _). rewrite E. reflexivity.
  - apply Hm. reflexivity.
  - exact H0.
  - exact H1.
Defined.

(** ** Traces of the handler *)

Lemma trace_bind {A B : Type} (m : M A) (f : A -> M B) :
  trace (bind m f) =
  trace m ++ match outcome m with
             | Ok a => trace (f a)
             | Err _ => []
             end.
Proof.
  destruct m as [t [a|e]]; unfold trace, outcome, bind; cbn [fst snd].
  - destruct (f a); reflexivity.
  - now rewrite app_nil_r.
Qed.

Lemma outcome_bind {A B : Type} (m : M A) (f : A -> M B) :
  outcome (bind m f) =
  match outcome m with
  | Ok a => outcome (f a)
  | Err e => Err e
  end.
Proof.
  destruct m as [t [a|e]]; unfold outcome, bind; cbn [fst snd];
    [destruct (f a)|]; reflexivity.
Qed.

Lemma Forall_trace_bind {A B : Type} (P : event -> Prop) (m : M A) (f : A -> M B) :
  Forall P (trace m) ->
  (forall a, outcome m = Ok a -> Forall P (trace (f a))) ->
  Forall P (trace (bind m f)).
Proof.
  intros Hm Hf. rewrite trace_bind. apply Forall_app. split; [assumption|].
  destruct (outcome m); [now apply Hf | constructor].
Qed.

Lemma Forall_trace_lift {A : Type} (P : event -> Prop) (r : result A) :
  Forall P (trace (lift r)).
Proof. constructor. Qed.

Lemma Forall_trace_emit (P : event -> Prop) (ev : event) :
  P ev -> Forall P (trace (emit ev)).
Proof. intros H. repeat constructor. exact H. Qed.

(** ** Stacking *)

Lemma tabulate_nth {A : Type} (d : A) (l : list A) :
  map (fun i => nth i l d) (seq 0 (length l)) = l.
Proof.
  apply nth_ext with (d := d) (d' := d).
  - now rewrite length_map, length_seq.
  - intros n Hn. rewrite length_map, length_seq in Hn.
    rewrite (nth_indep _ d (nth 0 l d))
      by now rewrite length_map, length_seq.
    rewrite (map_nth (fun i => nth i l d) (seq 0 (length l)) 0%nat n).
    now rewrite seq_nth.
Qed.

Lemma shape_row {A : Type} (a b : list (list A)) (r : nat) :
  shape a = shape b -> length (nth r a []) = length (nth r b []).
Proof.
  intros H. unfold shape in H.
  rewrite <- (map_nth (@length A) a [] r), <- (map_nth (@length A) b [] r).
  now rewrite H.
Qed.

Lemma channel_of_stack_last (first : channel) (arrays : list channel) (k : nat) :
  (k < length arrays)%nat ->
  shape (nth k arrays []) = shape first ->
  channel_of (stack_last first arrays) k = nth k arrays [].
Proof.
  intros Hk Hs. unfold channel_of, stack_last.
  set (a := nth k arrays []) in *.
  assert (length a = length first) as Hlen.
  { unfold shape in Hs. apply (f_equal (@length nat)) in Hs.
    now rewrite !length_map in Hs. }
  rewrite map_map.
  etransitivity; [|apply (tabulate_nth [] a)]. rewrite Hlen.
  apply map_ext. intros r. rewrite map_map.
  etransitivity; [|apply (tabulate_nth no_pixel (nth r a []))].
  rewrite (shape_row a first r Hs).
  apply map_ext. intros c.
  rewrite (nth_indep _ no_pixel
             ((fun x : channel => nth c (nth r x []) no_pixel) []))
    by now rewrite length_map.
  rewrite (map_nth (fun x : channel => nth c (nth r x []) no_pixel)).
  reflexivity.
Qed.

Lemma ma_stack_ok_shape (arrays : list channel) (out : image) (k : nat) :
  ma_stack arrays = Ok out ->
  (k < length arrays)%nat ->
  shape (nth k arrays []) = shape (nth 0 arrays []) /\
  out = stack_last (nth 0 arrays []) arrays.
Proof.
  destruct arrays as [|first rest]; [discriminate|]. cbn [ma_stack nth].
  match goal with
  | |- context [forallb ?f rest] => destruct (forallb f rest) eqn:E
  end; [|discriminate].
  intros H Hk. injection H as <-. split; [|reflexivity].
  destruct k as [|k]; [reflexivity|]. cbn [nth length] in *.
  rewrite forallb_forall in E.
  specialize (E (nth k rest [])).
  destruct (list_eq_dec Nat.eq_dec (shape (nth k rest [])) (shape first));
    [assumption|].
  discriminate E. apply nth_In. lia.
Qed.

(** A stacked array's [k]-th component plane is the [k]-th input array. *)
Lemma channel_of_ma_stack (arrays : list channel) (out : image) (k : nat) :
  ma_stack arrays = Ok out ->
  (k < length arrays)%nat ->
  channel_of out k = nth k arrays [].
Proof.
  intros H Hk. destruct (ma_stack_ok_shape arrays out k H Hk) as [Hs ->].
  now apply channel_of_stack_last.
Qed.

(** ** Futures and completion order *)

Lemma band_futures_ids (some_keys : keys) (rgba_values : list string) :
  forall next fut,
    In fut (band_futures some_keys next rgba_values) ->
    (next <= fut_id fut)%nat.
Proof.
  induction rgba_values as [|key rest IH]; intros next fut; cbn [band_futures].
  - intros [].
  - intros [<-|H]; [cbn; lia|]. apply IH in H. lia.
Qed.

Lemma band_futures_unique (some_keys : keys) (rgba_values : list string) :
  forall next f f',
    In f (band_futures some_keys next rgba_values) ->
    In f' (band_futures some_keys next rgba_values) ->
    fut_id f' = fut_id f -> f' = f.
Proof.
  induction rgba_values as [|key rest IH]; intros next f f'; cbn [band_futures].
  - intros [].
  - intros [<-|H] [<-|H'] E.
    + reflexivity.
    + apply band_futures_ids in H'. cbn in E. lia.
    + apply band_futures_ids in H. cbn in E. lia.
    + eapply IH; eassumption.
Qed.

Lemma get_band_futures_outcome (some_keys : keys) (rgba_values : list string) :
  forall next,
    outcome (get_band_futures some_keys next rgba_values)
    = Ok (band_futures some_keys next rgba_values).
Proof.
  induction rgba_values as [|key rest IH]; intros next;
    cbn [get_band_futures band_futures]; [reflexivity|].
  rewrite outcome_bind. unfold get_band_future at 1.
  rewrite outcome_bind. cbn [emit outcome snd ret].
  rewrite outcome_bind, IH. reflexivity.
Qed.

(** Whatever the order in which the workers finish, [result()] on a future
    yields the outcome of that future's own retrieval. *)
Lemma future_result_own (driver : Driver) (tile_xyz : option xyz_t)
    (tile_size_ : size_t) (futures : list Future) (fut : Future) :
  (forall f', In f' futures -> fut_id f' = fut_id fut -> f' = fut) ->
  forall finished,
    outcome (future_result driver tile_xyz tile_size_
               (slots driver finished tile_xyz tile_size_ futures) fut)
    = worker driver tile_xyz tile_size_ fut.
Proof.
  intros Huniq finished. unfold future_result.
  rewrite outcome_bind. cbn [emit outcome snd lift].
  induction finished as [|j rest IH]; [reflexivity|].
  unfold slots. cbn [flat_map]. fold (slots driver rest tile_xyz tile_size_ futures).
  destruct (find (fun f => fut_id f =? j)%nat futures) as [f|] eqn:Ef;
    cbn [app]; [|exact IH].
  cbn [find fst]. destruct (Nat.eqb_spec j (fut_id fut)) as [E|E]; [|exact IH].
  cbn [snd]. apply find_some in Ef. destruct Ef as [Hin Hid].
  apply Nat.eqb_eq in Hid. f_equal. apply Huniq; [assumption|lia].
Qed.

Lemma band_items_futures (some_keys : keys) (rgba_values : list string) :
  forall (ovs : list stretch_override) next key ov fut,
    In (key, (ov, fut))
       (combine rgba_values
                (combine ovs (band_futures some_keys next rgba_values))) ->
    fut_keys fut = some_keys ++ [key] /\
    In fut (band_futures some_keys next rgba_values).
Proof.
  induction rgba_values as [|k rest IH]; intros ovs next key ov fut;
    cbn [band_futures combine]; [intros []|].
  destruct ovs as [|o ovs]; cbn [combine]; [intros []|].
  intros [H|H].
  - injection H as <- <- <-. split; [reflexivity|now left].
  - apply IH in H. destruct H as [H1 H2]. split; [assumption|now right].
Qed.

Lemma band_items_bands (some_keys : keys) (rgba_values : list string) :
  forall (ovs : list stretch_override) next,
    map (fun i : string * (stretch_override * Future) => (fst i, fst (snd i)))
        (combine rgba_values
                 (combine ovs (band_futures some_keys next rgba_values)))
    = combine rgba_values ovs.
Proof.
  induction rgba_values as [|k rest IH]; intros ovs next;
    cbn [band_futures combine]; [reflexivity|].
  destruct ovs as [|o ovs]; cbn [combine map fst snd]; [reflexivity|].
  now rewrite IH.
Qed.

(** ** The handler *)

Section HandlerProperties.

Variable BinaryIO : Type.
Variable array_to_png : image -> result BinaryIO.
Variable settings : Settings.
Variable driver : Driver.
Variable finished : list nat.
Variable some_keys : keys.
Variable tile_xyz : option xyz_t.

Lemma get_band_futures_inner (rgba_values : list string) :
  forall next,
    Forall inner_event (trace (get_band_futures some_keys next rgba_values)).
Proof.
  induction rgba_values as [|key rest IH]; intros next; cbn [get_band_futures].
  - constructor.
  - apply Forall_trace_bind.
    + unfold get_band_future. apply Forall_trace_bind.
      * apply Forall_trace_emit. now split.
      * intros; constructor.
    + intros fut _. apply Forall_trace_bind; [apply IH|].
      intros; constructor.
Qed.

Lemma band_loop_inner (tile_size_ : size_t) store band_items :
  forall out_arrays,
    Forall inner_event
      (trace (band_loop driver some_keys tile_xyz tile_size_ store
                        band_items out_arrays)).
Proof.
  induction band_items as [|[band_key [ov fut]] rest IH]; intros out_arrays;
    cbn [band_loop].
  - constructor.
  - apply Forall_trace_bind; [apply Forall_trace_emit; now split|].
    intros _ _. apply Forall_trace_bind; [apply Forall_trace_lift|].
    intros md _. apply Forall_trace_bind; [apply Forall_trace_lift|].
    intros [low high] Hr. unfold outcome, lift in Hr. cbn [snd] in Hr.
    apply Forall_trace_bind.
    + unfold future_result. apply Forall_trace_bind;
        [apply Forall_trace_emit; now split | intros; constructor].
    + intros data _. apply Forall_trace_bind; [|intros; apply IH].
      apply Forall_trace_emit. split; [reflexivity|].
      cbn [fst snd]. eapply resolve_ok_ordered; eassumption.
Qed.

Lemma connected_inner (tile_size_ : size_t) rgba_values stretch_ranges_ :
  Forall inner_event
    (trace (connected driver finished some_keys tile_xyz tile_size_
                      rgba_values stretch_ranges_)).
Proof.
  unfold connected.
  apply Forall_trace_bind; [apply Forall_trace_emit; now split|].
  intros _ _.
  destruct (negb _); [constructor|].
  apply Forall_trace_bind; [apply get_band_futures_inner|].
  intros futures _. apply band_loop_inner.
Qed.

(** The handler's trace is empty when an argument count is wrong and is
    otherwise the trace of the [with] block's body between entering and
    leaving the connection. *)
Lemma rgba_trace rgba_values stretch_ranges tile_size :
  trace (rgba BinaryIO array_to_png settings driver finished some_keys
              rgba_values tile_xyz stretch_ranges tile_size) =
  if (length (supplied_ranges stretch_ranges) =? 4)%nat
     && (length rgba_values =? 4)%nat
  then EvConnect ::
       trace (connected driver finished some_keys tile_xyz
                        (effective_tile_size settings tile_size)
                        rgba_values
                        (map or_absent (supplied_ranges stretch_ranges)))
       ++ [EvDisconnect]
  else [].
Proof.
  unfold rgba.
  destruct (length (supplied_ranges stretch_ranges) =? 4)%nat;
    cbn [negb andb]; [|reflexivity].
  destruct (length rgba_values =? 4)%nat; cbn [negb]; [|reflexivity].
  rewrite trace_bind.
  destruct (connected driver finished some_keys tile_xyz
                      (effective_tile_size settings tile_size)
                      rgba_values
                      (map or_absent (supplied_ranges stretch_ranges)))
    as [t r].
  unfold with_connect, trace, outcome. cbn [fst snd].
  destruct r as [out_arrays|e]; [|now rewrite app_nil_r].
  destruct (ma_stack out_arrays) as [out|e]; cbn; now rewrite app_nil_r.
Qed.


Local Abbreviation handler :=
  (rgba BinaryIO array_to_png settings driver finished).

(** C5.  When the number of band selectors or the number of stretch-range
    entries is not exactly 4, the handler raises [InvalidArgumentsError]
    with nothing done before: no connection, no retrieval.  With a
    well-formed list of stretch ranges (in particular with three band
    selectors) the error is the one about the band count. *)
Theorem count_validation_before_io rgba_values stretch_ranges tile_size :
  (length rgba_values <> 4 \/
   length (supplied_ranges stretch_ranges) <> 4)%nat ->
  (exists msg,
      handler some_keys rgba_values tile_xyz stretch_ranges tile_size
      = ([], Err (InvalidArgumentsError msg))) /\
  (length (supplied_ranges stretch_ranges) = 4%nat ->
   handler some_keys rgba_values tile_xyz stretch_ranges tile_size
   = ([], Err (InvalidArgumentsError rgba_count_msg))).
Proof.
  intros H. unfold rgba.
  destruct (Nat.eqb_spec (length (supplied_ranges stretch_ranges)) 4)
    as [Es|Es]; cbn [negb].
  - destruct (Nat.eqb_spec (length rgba_values) 4) as [Er|Er]; cbn [negb].
    + destruct H; contradiction.
    + split; [eexists|intros _]; reflexivity.
  - split; [eexists; reflexivity | intros; contradiction].
Qed.

(** C6, as the code has it.  When the number of dataset keys is not the
    catalog's key arity minus one, the handler raises
    [InvalidArgumentsError] and no tile or metadata retrieval is issued;
    the key count is compared inside the connection, right after the key
    names are read, and the connection is left again. *)
Theorem key_count_validation some_keys' rgba_values stretch_ranges tile_size :
  Z.of_nat (length some_keys') <> (Z.of_nat (length (key_names driver)) - 1)%Z ->
  (exists msg,
      outcome (handler some_keys' rgba_values tile_xyz stretch_ranges tile_size)
      = Err (InvalidArgumentsError msg)) /\
  Forall (fun ev => retrieval_event ev = false)
         (trace (handler some_keys' rgba_values tile_xyz stretch_ranges tile_size)) /\
  (length (supplied_ranges stretch_ranges) = 4%nat ->
   length rgba_values = 4%nat ->
   handler some_keys' rgba_values tile_xyz stretch_ranges tile_size
   = ([EvConnect; EvKeyNames; EvDisconnect],
      Err (InvalidArgumentsError key_count_msg))).
Proof.
  intros H. apply Z.eqb_neq in H. unfold rgba.
  destruct (Nat.eqb_spec (length (supplied_ranges stretch_ranges)) 4)
    as [Es|Es]; cbn [negb].
  2:{ split; [eexists; reflexivity|]. split; [constructor|contradiction]. }
  destruct (Nat.eqb_spec (length rgba_values) 4) as [Er|Er]; cbn [negb].
  2:{ split; [eexists; reflexivity|]. split; [constructor|contradiction]. }
  unfold connected. rewrite H. cbn.
  split; [eexists; reflexivity|]. split; [|reflexivity].
  repeat constructor.
Qed.

(** C9.  Whenever the handler enters the driver connection it leaves it
    exactly once, as the last thing it does to the outside world, whether
    it returns or raises; everything else it does lies in between. *)
Theorem connection_released_once rgba_values stretch_ranges tile_size :
  let t := trace (handler some_keys rgba_values tile_xyz stretch_ranges
                          tile_size) in
  In EvConnect t ->
  exists inner,
    t = EvConnect :: inner ++ [EvDisconnect] /\
    Forall (fun ev => connection_event ev = false) inner /\
    length (filter connection_event t) = 2%nat.
Proof.
  intros t Hin. subst t. rewrite rgba_trace in *.
  destruct (_ && _); [|destruct Hin].
  set (body := trace (connected _ _ _ _ _ _ _)).
  assert (Forall (fun ev => connection_event ev = false) body) as Hb.
  { eapply Forall_impl; [|apply connected_inner].
    intros ev [Hc _]. exact Hc. }
  exists body. split; [reflexivity|]. split; [assumption|].
  cbn [filter connection_event length]. rewrite filter_app.
  cbn [filter connection_event]. rewrite length_app. cbn [length].
  assert (filter connection_event body = []) as ->; [|reflexivity].
  clear -Hb. induction Hb as [|ev l Hev _ IH]; [reflexivity|].
  cbn [filter]. now rewrite Hev.
Qed.

(** The quantizer is only ever called on a range whose upper bound is not
    below its lower bound. *)
Lemma to_uint8_range_ordered rgba_values stretch_ranges tile_size low high :
  In (EvToUint8 low high)
     (trace (handler some_keys rgba_values tile_xyz stretch_ranges tile_size)) ->
  low <= high.
Proof.
  rewrite rgba_trace. destruct (_ && _); [|intros []].
  intros [H|H]; [discriminate|].
  apply in_app_or in H. destruct H as [H|[H|[]]]; [|discriminate].
  pose proof (connected_inner
                (effective_tile_size settings tile_size) rgba_values
                (map or_absent (supplied_ranges stretch_ranges))) as F.
  rewrite Forall_forall in F. apply (F _ H).
Qed.

(** The loop yields the bands' channels in the order of its items, given
    that each item's future delivers the raster of the item's band. *)
Lemma band_loop_outcome (tile_size_ : size_t) store band_items :
  (forall key ov fut,
      In (key, (ov, fut)) band_items ->
      outcome (future_result driver tile_xyz tile_size_ store fut)
      = get_tile_data driver (some_keys ++ [key]) tile_xyz tile_size_) ->
  forall out_arrays,
    outcome (band_loop driver some_keys tile_xyz tile_size_ store band_items
                       out_arrays)
    = rbind (band_channels driver some_keys tile_xyz tile_size_
               (map (fun i : string * (stretch_override * Future) =>
                       (fst i, fst (snd i))) band_items))
            (fun cs => Ok (out_arrays ++ cs)).
Proof.
  induction band_items as [|[band_key [ov fut]] rest IH]; intros Hfut out_arrays.
  - cbn. now rewrite app_nil_r.
  - cbn [band_loop map fst snd band_channels]. unfold band_channel.
    rewrite outcome_bind. cbn [emit outcome snd].
    rewrite outcome_bind. cbn [lift outcome snd].
    destruct (get_metadata driver (some_keys ++ [band_key])) as [md|e];
      cbn [rbind]; [|reflexivity].
    rewrite outcome_bind. cbn [lift outcome snd].
    destruct (resolve_stretch_range md ov) as [r|e]; cbn [rbind]; [|reflexivity].
    rewrite outcome_bind.
    rewrite (Hfut band_key ov fut) by now left.
    destruct (get_tile_data driver (some_keys ++ [band_key]) tile_xyz tile_size_)
      as [data|e]; cbn [rbind]; [|reflexivity].
    rewrite outcome_bind. cbn [emit outcome snd].
    rewrite IH
      by (intros key' ov' fut' Hin'; apply (Hfut key' ov' fut'); now right).
    destruct (band_channels driver some_keys tile_xyz tile_size_ _) as [cs|e];
      cbn [rbind]; [|reflexivity].
    now rewrite <- app_assoc.
Qed.

(** Inside the connection, with the right number of keys, the handler
    produces the channels of the requested bands in the order of
    [rgba_values], whatever the completion order of the retrievals. *)
Lemma connected_outcome (tile_size_ : size_t) rgba_values stretch_ranges_ :
  Z.of_nat (length some_keys) = (Z.of_nat (length (key_names driver)) - 1)%Z ->
  outcome (connected driver finished some_keys tile_xyz tile_size_
                     rgba_values stretch_ranges_)
  = band_channels driver some_keys tile_xyz tile_size_
      (combine rgba_values stretch_ranges_).
Proof.
  intros Hk. apply Z.eqb_eq in Hk. unfold connected.
  rewrite outcome_bind. cbn [emit outcome snd]. rewrite Hk. cbn [negb].
  rewrite outcome_bind, get_band_futures_outcome.
  rewrite band_loop_outcome.
  - rewrite band_items_bands.
    destruct (band_channels _ _ _ _ _); reflexivity.
  - intros key ov fut Hin. apply band_items_futures in Hin.
    destruct Hin as [Hkeys Hin].
    rewrite future_result_own.
    + unfold worker. now rewrite Hkeys.
    + intros f' Hin' Hid. eapply band_futures_unique; eassumption.
Qed.

(** The channel of a band whose stretch entry is [None] is quantized with
    the dataset's own range; that of a band with an entry, with the range
    the entry resolves to. *)
Lemma band_channel_entry (tile_size_ : size_t) (band_key : string)
    (entry : option stretch_override) (md : metadata) (rng : Q * Q) (t : tile) :
  get_metadata driver (some_keys ++ [band_key]) = Ok md ->
  match entry with
  | None => fst (md_range md) <= snd (md_range md) /\ rng = md_range md
  | Some ov => resolve_stretch_range md ov = Ok rng
  end ->
  get_tile_data driver (some_keys ++ [band_key]) tile_xyz tile_size_ = Ok t ->
  band_channel driver some_keys tile_xyz tile_size_ band_key (or_absent entry)
  = Ok (to_uint8 t (fst rng) (snd rng)).
Proof.
  intros Hmd Hrng Ht. unfold band_channel. rewrite Hmd. cbn [rbind].
  destruct entry as [ov|]; cbn [or_absent].
  - rewrite Hrng. cbn [rbind]. now rewrite Ht.
  - destruct Hrng as [Hord ->]. rewrite (resolve_no_override md Hord).
    cbn [rbind]. now rewrite Ht.
Qed.

(** C10.  Omitting [stretch_ranges] is the same as passing four empty
    entries, and an entry that is [None] is the same as the pair of two
    absent bounds.  In neither case is the count of stretch ranges
    refused: the only count that can still be refused is that of the
    bands, and with four bands the connection is entered.  For every band
    whose entry is [None], in a list or because the argument was omitted,
    the handler quantizes with the dataset's default range. *)
Theorem omitted_ranges_are_absent rgba_values tile_size :
  handler some_keys rgba_values tile_xyz None tile_size
  = handler some_keys rgba_values tile_xyz
      (Some [None; None; None; None]) tile_size /\
  handler some_keys rgba_values tile_xyz None tile_size
  = handler some_keys rgba_values tile_xyz
      (Some [Some (None, None); Some (None, None);
             Some (None, None); Some (None, None)]) tile_size /\
  (forall l,
      handler some_keys rgba_values tile_xyz (Some l) tile_size
      = handler some_keys rgba_values tile_xyz
          (Some (map (fun e => Some (or_absent e)) l)) tile_size) /\
  (forall md,
      fst (md_range md) <= snd (md_range md) ->
      resolve_stretch_range md (or_absent None) = Ok (md_range md)) /\
  (forall stretch_ranges,
      stretch_ranges = None \/
      (exists l, stretch_ranges = Some l /\ length l = 4%nat) ->
      (length rgba_values <> 4%nat ->
       handler some_keys rgba_values tile_xyz stretch_ranges tile_size
       = ([], Err (InvalidArgumentsError rgba_count_msg))) /\
      (length rgba_values = 4%nat ->
       exists inner,
         trace (handler some_keys rgba_values tile_xyz stretch_ranges tile_size)
         = EvConnect :: inner ++ [EvDisconnect])) /\
  (forall stretch_ranges (e_r e_g e_b e_a : option stretch_override)
          (r g b a : string) (md_r md_g md_b md_a : metadata)
          (rng_r rng_g rng_b rng_a : Q * Q) (t_r t_g t_b t_a : tile),
      let tile_size_ := effective_tile_size settings tile_size in
      let band_keys k := some_keys ++ [k] in
      let range_used (e : option stretch_override) md (rng : Q * Q) :=
        match e with
        | None => fst (md_range md) <= snd (md_range md) /\ rng = md_range md
        | Some ov => resolve_stretch_range md ov = Ok rng
        end in
      supplied_ranges stretch_ranges = [e_r; e_g; e_b; e_a] ->
      rgba_values = [r; g; b; a] ->
      Z.of_nat (length some_keys)
      = (Z.of_nat (length (key_names driver)) - 1)%Z ->
      get_metadata driver (band_keys r) = Ok md_r ->
      get_metadata driver (band_keys g) = Ok md_g ->
      get_metadata driver (band_keys b) = Ok md_b ->
      get_metadata driver (band_keys a) = Ok md_a ->
      range_used e_r md_r rng_r ->
      range_used e_g md_g rng_g ->
      range_used e_b md_b rng_b ->
      range_used e_a md_a rng_a ->
      get_tile_data driver (band_keys r) tile_xyz tile_size_ = Ok t_r ->
      get_tile_data driver (band_keys g) tile_xyz tile_size_ = Ok t_g ->
      get_tile_data driver (band_keys b) tile_xyz tile_size_ = Ok t_b ->
      get_tile_data driver (band_keys a) tile_xyz tile_size_ = Ok t_a ->
      outcome (handler some_keys rgba_values tile_xyz stretch_ranges tile_size)
      = rbind (ma_stack [to_uint8 t_r (fst rng_r) (snd rng_r);
                         to_uint8 t_g (fst rng_g) (snd rng_g);
                         to_uint8 t_b (fst rng_b) (snd rng_b);
                         to_uint8 t_a (fst rng_a) (snd rng_a)])
              array_to_png).
Proof.
  split; [reflexivity|]. split; [reflexivity|].
  split; [|split; [|split]].
  - intros l. unfold rgba, supplied_ranges.
    rewrite length_map, map_map. reflexivity.
  - intros md. apply resolve_no_override.
  - intros stretch_ranges Hsr.
    assert (length (supplied_ranges stretch_ranges) = 4%nat) as Hl.
    { destruct Hsr as [->|(l & -> & Hl)]; [reflexivity|exact Hl]. }
    split.
    + intros Hr. unfold rgba. rewrite Hl. cbn [Nat.eqb negb].
      apply Nat.eqb_neq in Hr. rewrite Hr. reflexivity.
    + intros Hr. rewrite rgba_trace, Hl, Hr. cbn [Nat.eqb andb].
      eexists. reflexivity.
  - intros stretch_ranges e_r e_g e_b e_a r g b a md_r md_g md_b md_a
           rng_r rng_g rng_b rng_a t_r t_g t_b t_a tile_size_ band_keys
           range_used Hsr Hvals Hk Mr Mg Mb Ma Rr Rg Rb Ra Tr Tg Tb Ta.
    subst rgba_values. unfold rgba. rewrite Hsr. cbn [length Nat.eqb negb].
    rewrite outcome_bind.
    assert (forall A (m : M A), outcome (with_connect m) = outcome m) as Hw
        by (intros A [t o]; reflexivity).
    rewrite Hw, connected_outcome by assumption.
    cbn [map combine band_channels]. fold tile_size_.
    rewrite (band_channel_entry tile_size_ r e_r md_r rng_r t_r Mr Rr Tr).
    rewrite (band_channel_entry tile_size_ g e_g md_g rng_g t_g Mg Rg Tg).
    rewrite (band_channel_entry tile_size_ b e_b md_b rng_b t_b Mb Rb Tb).
    rewrite (band_channel_entry tile_size_ a e_a md_a rng_a t_a Ma Ra Ta).
    cbn [rbind]. rewrite outcome_bind. cbn [lift outcome snd].
    destruct (ma_stack _); reflexivity.
Qed.

(** C7.  On a successful request the output image has its four channels in
    the order of the band selectors: channel 0 is the quantized tile of
    the first band, channel 1 of the second, and so on, and this holds for
    every order in which the four retrievals finish. *)
Theorem rgba_channel_order (r g b a : string) stretch_ranges tile_size
    (ov_r ov_g ov_b ov_a : stretch_override) (c_r c_g c_b c_a : channel) :
  let tile_size_ := effective_tile_size settings tile_size in
  Z.of_nat (length some_keys) = (Z.of_nat (length (key_names driver)) - 1)%Z ->
  map or_absent (supplied_ranges stretch_ranges) = [ov_r; ov_g; ov_b; ov_a] ->
  band_channel driver some_keys tile_xyz tile_size_ r ov_r = Ok c_r ->
  band_channel driver some_keys tile_xyz tile_size_ g ov_g = Ok c_g ->
  band_channel driver some_keys tile_xyz tile_size_ b ov_b = Ok c_b ->
  band_channel driver some_keys tile_xyz tile_size_ a ov_a = Ok c_a ->
  outcome (handler some_keys [r; g; b; a] tile_xyz stretch_ranges tile_size)
  = rbind (ma_stack [c_r; c_g; c_b; c_a]) array_to_png /\
  (forall out,
      ma_stack [c_r; c_g; c_b; c_a] = Ok out ->
      channel_of out 0 = c_r /\ channel_of out 1 = c_g /\
      channel_of out 2 = c_b /\ channel_of out 3 = c_a).
Proof.
  intros tile_size_ Hk Hov Hr Hg Hb Ha. split.
  - unfold rgba.
    assert (length (supplied_ranges stretch_ranges) = 4%nat) as Hl.
    { rewrite <- (length_map or_absent), Hov. reflexivity. }
    rewrite Hl. cbn [Nat.eqb negb length].
    rewrite outcome_bind.
    assert (forall A (m : M A), outcome (with_connect m) = outcome m) as Hw
        by (intros A [t o]; reflexivity).
    rewrite Hw, connected_outcome by assumption.
    rewrite Hov. cbn [combine band_channels]. fold tile_size_.
    rewrite Hr, Hg, Hb, Ha. cbn [rbind].
    rewrite outcome_bind. cbn [lift outcome snd].
    destruct (ma_stack [c_r; c_g; c_b; c_a]); reflexivity.
  - intros out Hout.
    repeat split;
      match goal with
      | |- channel_of _ ?k = _ =>
          rewrite (channel_of_ma_stack _ _ k Hout) by (cbn; lia); reflexivity
      end.
Qed.

End HandlerProperties.

(** ** The handler on the sample catalog *)

Lemma count_validation_before_io_witness :
  (length ["b1"; "b2"; "b3"] <> 4)%nat /\
  sample_rgba [] ["2020"] ["b1"; "b2"; "b3"] None
  = ([], Err (InvalidArgumentsError rgba_count_msg)).
Proof.
  assert (length ["b1"; "b2"; "b3"] <> 4)%nat as H by (cbn; lia).
  split; [exact H|].
  apply (count_validation_before_io image (fun out => Ok out) sample_settings
           sample_driver [] ["2020"] None ["b1"; "b2"; "b3"] None None).
  - left. exact H.
  - reflexivity.
Defined.

(** C6, as stated: the key count would be refused before the connection is
    entered.  With no dataset key for a catalog of two key names the handler
    does raise, but only after it has entered the connection. *)
Lemma key_count_checked_inside_connection :
  Z.of_nat (length (@nil string))
  <> (Z.of_nat (length (key_names sample_driver)) - 1)%Z /\
  ~ raises_before_connecting (sample_rgba [] [] four_bands None).
Proof.
  split.
  - vm_compute. discriminate.
  - intros [_ H]. apply H. vm_compute. left. reflexivity.
Qed.

Lemma key_count_validation_witness :
  sample_rgba [] [] four_bands None
  = ([EvConnect; EvKeyNames; EvDisconnect],
     Err (InvalidArgumentsError key_count_msg)).
Proof.
  apply (key_count_validation image (fun out => Ok out) sample_settings
           sample_driver [] None [] four_bands None None).
  - vm_compute. discriminate.
  - reflexivity.
  - reflexivity.
Defined.

Lemma connection_released_once_witness :
  let released (m : M image) :=
    exists inner,
      trace m = EvConnect :: inner ++ [EvDisconnect] /\
      Forall (fun ev => connection_event ev = false) inner /\
      length (filter connection_event (trace m)) = 2%nat in
  released (sample_rgba [] ["2020"] four_bands None) /\
  released (sample_rgba [] [] four_bands None) /\
  released (sample_rgba [] ["2020"] four_bands inverted_ranges) /\
  released (sample_rgba [] ["2020"] ["b1"; "b2"; "b3"; "zz"] None).
Proof.
  cbv zeta. split; [|split; [|split]].
  - apply (connection_released_once image (fun out => Ok out) sample_settings
             sample_driver [] ["2020"] None four_bands None None).
    vm_compute. left. reflexivity.
  - apply (connection_released_once image (fun out => Ok out) sample_settings
             sample_driver [] [] None four_bands None None).
    vm_compute. left. reflexivity.
  - apply (connection_released_once image (fun out => Ok out) sample_settings
             sample_driver [] ["2020"] None four_bands inverted_ranges None).
    vm_compute. left. reflexivity.
  - apply (connection_released_once image (fun out => Ok out) sample_settings
             sample_driver [] ["2020"] None ["b1"; "b2"; "b3"; "zz"] None None).
    vm_compute. left. reflexivity.
Defined.

Lemma omitted_ranges_are_absent_witness :
  sample_rgba [] ["2020"] four_bands None
  = sample_rgba [] ["2020"] four_bands
      (Some [Some (None, None); None; Some (None, None); None]) /\
  resolve_stretch_range sample_metadata (or_absent None) = Ok (0, 100) /\
  (exists inner,
      trace (sample_rgba [] ["2020"] four_bands None)
      = EvConnect :: inner ++ [EvDisconnect]) /\
  outcome (sample_rgba [] ["2020"] four_bands None)
  = rbind (ma_stack [to_uint8 [[px 10; px 50]] 0 100;
                     to_uint8 [[px 20; px 50]] 0 100;
                     to_uint8 [[px 30; px 50]] 0 100;
                     to_uint8 [[px 40; px 50]] 0 100])
          (fun out => Ok out) /\
  outcome (sample_rgba [] ["2020"] four_bands
             (Some [None; Some (None, Some (Percentile 2)); None; None]))
  = rbind (ma_stack [to_uint8 [[px 10; px 50]] 0 100;
                     to_uint8 [[px 20; px 50]] 0 80;
                     to_uint8 [[px 30; px 50]] 0 100;
                     to_uint8 [[px 40; px 50]] 0 100])
          (fun out => Ok out).
Proof.
  destruct (omitted_ranges_are_absent image (fun out => Ok out) sample_settings
              sample_driver [] ["2020"] None four_bands None)
    as (_ & H1 & H2 & H3 & H4 & H5).
  assert (fst (md_range sample_metadata) <= snd (md_range sample_metadata))
    as Hord by (vm_compute; discriminate).
  split; [|split; [|split; [|split]]].
  - unfold sample_rgba. etransitivity; [exact H1|]. symmetry.
    exact (H2 [Some (None, None); None; Some (None, None); None]).
  - apply (H3 sample_metadata). exact Hord.
  - apply (H4 None); [now left|reflexivity].
  - apply (H5 None None None None None "b1" "b2" "b3" "b4"
              sample_metadata sample_metadata sample_metadata sample_metadata
              (0, 100) (0, 100) (0, 100) (0, 100)
              [[px 10; px 50]] [[px 20; px 50]] [[px 30; px 50]]
              [[px 40; px 50]]);
      try reflexivity; split; (exact Hord || reflexivity).
  - apply (H5 (Some [None; Some (None, Some (Percentile 2)); None; None])
              None (Some (None, Some (Percentile 2))) None None
              "b1" "b2" "b3" "b4"
              sample_metadata sample_metadata sample_metadata sample_metadata
              (0, 100) (0, 80) (0, 100) (0, 100)
              [[px 10; px 50]] [[px 20; px 50]] [[px 30; px 50]]
              [[px 40; px 50]]);
      try reflexivity; split; (exact Hord || reflexivity).
Defined.

Lemma rgba_channel_order_witness :
  exists out,
    outcome (sample_rgba [3; 1; 0; 2]%nat ["2020"] four_bands None) = Ok out /\
    channel_of out 0 = to_uint8 [[px 10; px 50]] 0 100 /\
    channel_of out 1 = to_uint8 [[px 20; px 50]] 0 100 /\
    channel_of out 2 = to_uint8 [[px 30; px 50]] 0 100 /\
    channel_of out 3 = to_uint8 [[px 40; px 50]] 0 100.
Proof.
  destruct (rgba_channel_order image (fun out => Ok out) sample_settings
              sample_driver [3; 1; 0; 2]%nat ["2020"] None
              "b1" "b2" "b3" "b4" None None
              (None, None) (None, None) (None, None) (None, None)
              (to_uint8 [[px 10; px 50]] 0 100)
              (to_uint8 [[px 20; px 50]] 0 100)
              (to_uint8 [[px 30; px 50]] 0 100)
              (to_uint8 [[px 40; px 50]] 0 100)
              eq_refl eq_refl eq_refl eq_refl eq_refl eq_refl) as [Hout Hch].
  eexists. split.
  - exact Hout.
  - apply Hch. reflexivity.
Defined.

(** C1, on the code.  A band whose lower and upper bound resolve to the
    same value is not refused: the comparison of line 101 only raises when
    the upper bound is below the lower one.  This happens with two absolute
    bounds and with a percentile bound against an absolute one, and the
    whole request succeeds. *)
Theorem equal_bounds_not_rejected :
  (forall md v,
      resolve_stretch_range md (Some (Absolute v), Some (Absolute v))
      = Ok (v, v)) /\
  resolve_stretch_range sample_metadata (Some (Absolute 5), Some (Absolute 5))
  = Ok (5, 5) /\
  resolve_stretch_range sample_metadata (Some (Percentile 1), Some (Absolute 20))
  = Ok (20, 20) /\
  exists out,
    outcome (sample_rgba [] ["2020"] four_bands degenerate_ranges) = Ok out.
Proof.
  split; [|split; [reflexivity|]; split; [reflexivity|]].
  - intros md v. unfold resolve_stretch_range. cbn [get_stretch_scale rbind fst snd].
    assert (Qltb v v = false) as -> by (apply Qltb_ge, Qle_refl).
    reflexivity.
  - eexists. vm_compute. reflexivity.
Qed.

(** C2, on the code.  A band whose resolved bounds are equal reaches the
    quantizer: [image.to_uint8] is called with [low = high], so that
    [high - low] is zero. *)
Theorem equal_bounds_reach_quantizer :
  In (EvToUint8 5 5)
     (trace (sample_rgba [] ["2020"] four_bands degenerate_ranges)) /\
  5 - 5 == 0 /\
  ~ 5 < 5.
Proof.
  split; [|split].
  - vm_compute. do 8 right. left. reflexivity.
  - reflexivity.
  - intros H. discriminate H.
Qed.

(** * Further properties of the stretch range resolver *)

(** X6.  Once both bounds have been substituted, the resolver refuses the
    range exactly when the upper bound is below the lower one, and returns
    the substituted bounds unchanged otherwise. *)
Theorem range_check_rejects_inverted (md : metadata) (ov : stretch_override)
    (low high : Q) :
  substituted md ov = Ok (low, high) ->
  (high < low ->
   resolve_stretch_range md ov = Err (InvalidArgumentsError upper_bound_msg)) /\
  (low <= high -> resolve_stretch_range md ov = Ok (low, high)) /\
  (resolve_stretch_range md ov = Err (InvalidArgumentsError upper_bound_msg)
   -> high < low).
Proof.
  intros Hs. rewrite resolve_after_substitution, Hs. cbn [rbind fst snd].
  split; [|split].
  - intros H. apply Qltb_lt in H. now rewrite H.
  - intros H. apply Qltb_ge in H. now rewrite H.
  - destruct (Qltb high low) eqn:E; [intros _; now apply Qltb_lt|discriminate].
Qed.

(** X7.  An override of one bound only is checked against the dataset's own
    other bound: an absolute lower bound above the dataset maximum, or an
    absolute upper bound below the dataset minimum, is refused. *)
Theorem one_sided_override_against_default (md : metadata) (v : Q) :
  (snd (md_range md) < v ->
   resolve_stretch_range md (Some (Absolute v), None)
   = Err (InvalidArgumentsError upper_bound_msg)) /\
  (v < fst (md_range md) ->
   resolve_stretch_range md (None, Some (Absolute v))
   = Err (InvalidArgumentsError upper_bound_msg)) /\
  (fst (md_range md) <= v -> v <= snd (md_range md) ->
   resolve_stretch_range md (Some (Absolute v), None)
   = Ok (v, snd (md_range md)) /\
   resolve_stretch_range md (None, Some (Absolute v))
   = Ok (fst (md_range md), v)).
Proof.
  unfold resolve_stretch_range. cbn [get_stretch_scale rbind fst snd].
  split; [|split].
  - intros H. apply Qltb_lt in H. now rewrite H.
  - intros H. apply Qltb_lt in H. now rewrite H.
  - intros H1 H2. apply Qltb_ge in H1, H2. now rewrite H1, H2.
Qed.

(** * The route *)

Lemma split_nonempty (sep : ascii) (s : string) : server.split sep s <> [].
Proof.
  destruct s as [|c rest]; cbn [server.split]; [discriminate|].
  destruct (Ascii.eqb c sep); [discriminate|].
  destruct (server.split sep rest); discriminate.
Qed.

(** Splitting distributes over a separator between two strings. *)
Lemma split_app (sep : ascii) (s1 s2 : string) :
  server.split sep (s1 ++ String sep s2)%string
  = server.split sep s1 ++ server.split sep s2.
Proof.
  induction s1 as [|c rest IH]; cbn [String.append server.split].
  - now rewrite Ascii.eqb_refl.
  - destruct (Ascii.eqb c sep); [now rewrite IH|].
    rewrite IH.
    pose proof (split_nonempty sep rest) as Hne.
    destruct (server.split sep rest) as [|seg segs]; [contradiction|].
    reflexivity.
Qed.

Lemma split_slash_free (s : string) :
  server.slash_free s = true -> server.split "/" s = [s].
Proof.
  induction s as [|c rest IH]; cbn [server.slash_free server.split];
    [reflexivity|].
  intros H. apply andb_true_iff in H. destruct H as [Hc Hrest].
  apply negb_true_iff in Hc. rewrite Hc, (IH Hrest). reflexivity.
Qed.

Lemma split_pieces_slash_free (s : string) :
  Forall (fun seg => server.slash_free seg = true) (server.split "/" s).
Proof.
  induction s as [|c rest IH]; cbn [server.split].
  - repeat constructor.
  - destruct (Ascii.eqb c "/") eqn:E; [constructor; [reflexivity|exact IH]|].
    destruct (server.split "/" rest) as [|seg segs];
      [repeat constructor; cbn; now rewrite E|].
    inversion IH as [|? ? Hseg Hsegs]; subst.
    constructor; [|assumption]. cbn [server.slash_free]. now rewrite E, Hseg.
Qed.

(** X8.  The keys the route hands to the handler are the pieces of the URL
    path between slashes, in order: a path made of non-empty, slash-free
    segments joined by slashes gives back exactly those segments. *)
Theorem path_keys_of_joined_segments (ks : list string) :
  Forall server.key_segment ks ->
  server.path_keys (String.concat "/" ks) = ks.
Proof.
  induction ks as [|k rest IH]; intros H; [reflexivity|].
  inversion H as [|? ? [Hk1 Hk2] Hrest]; subst.
  assert (server.path_keys k = [k]) as Ek.
  { unfold server.path_keys. rewrite (split_slash_free k Hk2).
    cbn [filter]. now rewrite Hk1. }
  destruct rest as [|k' rest']; [exact Ek|].
  change (String.concat "/" (k :: k' :: rest'))
    with (k ++ String "/" (String.concat "/" (k' :: rest')))%string.
  unfold server.path_keys. rewrite split_app, filter_app.
  fold (server.path_keys k).
  fold (server.path_keys (String.concat "/" (k' :: rest'))).
  rewrite Ek, (IH Hrest). reflexivity.
Qed.

Lemma path_keys_of_joined_segments_witness :
  Forall server.key_segment ["2020"; "08"; "nir"] /\
  server.path_keys "2020/08/nir" = ["2020"; "08"; "nir"].
Proof.
  assert (Forall server.key_segment ["2020"; "08"; "nir"]) as H
      by (repeat constructor).
  split; [exact H|].
  exact (path_keys_of_joined_segments ["2020"; "08"; "nir"] H).
Defined.

(** X9.  Slashes only separate keys: the keys of two paths joined by a
    slash are the keys of the first followed by the keys of the second, so
    leading, trailing and doubled slashes change nothing, and no key handed
    to the handler is empty or contains a slash. *)
Theorem path_keys_slashes (keys1 keys2 : string) :
  server.path_keys (keys1 ++ String "/" keys2)%string
  = server.path_keys keys1 ++ server.path_keys keys2 /\
  server.path_keys (String "/" keys1) = server.path_keys keys1 /\
  server.path_keys (keys1 ++ "/")%string = server.path_keys keys1 /\
  Forall server.key_segment (server.path_keys keys1).
Proof.
  assert (forall s1 s2,
             server.path_keys (s1 ++ String "/" s2)%string
             = server.path_keys s1 ++ server.path_keys s2) as Happ.
  { intros s1 s2. unfold server.path_keys.
    now rewrite split_app, filter_app. }
  split; [apply Happ|]. split; [|split].
  - reflexivity.
  - rewrite (Happ keys1 ""%string). apply app_nil_r.
  - unfold server.path_keys. apply Forall_forall. intros k Hin.
    apply filter_In in Hin. destruct Hin as [Hin Ht].
    split; [exact Ht|].
    pose proof (split_pieces_slash_free keys1) as F.
    rewrite Forall_forall in F. now apply F.
Qed.

Section RouteProperties.

Variable BinaryIO : Type.
Variable array_to_png : image -> result BinaryIO.
Variable settings : Settings.
Variable driver : Driver.
Variable finished : list nat.

(** X10.  A request that reaches the handler through the route always has
    four band keys and four stretch ranges, so the handler's two count
    errors cannot occur: the driver connection is entered and left on
    every such request, and the handler's result or error is passed on
    unchanged, as an [image/png] response on success.  When the query does
    not pass the schema nothing is asked of the driver. *)
Theorem route_always_reaches_driver (keys : string) (tile_xyz : option xyz_t) :
  (forall e,
      server._get_rgba_image BinaryIO array_to_png settings driver finished
        (Err e) keys tile_xyz = ([], Err e)) /\
  (forall options,
      let handled :=
        rgba BinaryIO array_to_png settings driver finished
             (server.path_keys keys)
             [server.r options; server.g options; server.b options;
              server.a options] tile_xyz
             (Some [server.r_range options; server.g_range options;
                    server.b_range options; server.a_range options])
             (server.tile_size options) in
      let routed :=
        server._get_rgba_image BinaryIO array_to_png settings driver finished
          (Ok options) keys tile_xyz in
      (exists inner,
          trace routed = EvConnect :: inner ++ [EvDisconnect] /\
          Forall (fun ev => connection_event ev = false) inner) /\
      outcome routed
      = match outcome handled with
        | Ok image =>
            Ok {| server.response_file := image;
                  server.response_mimetype := "image/png" |}
        | Err e => Err e
        end).
Proof.
  split; [reflexivity|].
  intros options handled routed. subst routed.
  unfold server._get_rgba_image. cbn [lift bind app].
  fold handled.
  assert (trace handled
          = EvConnect ::
              trace (connected driver finished (server.path_keys keys) tile_xyz
                       (effective_tile_size settings (server.tile_size options))
                       [server.r options; server.g options; server.b options;
                        server.a options]
                       (map or_absent
                          [server.r_range options; server.g_range options;
                           server.b_range options; server.a_range options]))
              ++ [EvDisconnect]) as Ht.
  { subst handled. rewrite rgba_trace. reflexivity. }
  destruct handled as [t o]. cbn [trace fst] in Ht. subst t.
  split.
  - eexists. split.
    + destruct o; cbn [bind ret trace fst app]; [|reflexivity].
      now rewrite app_nil_r.
    + eapply Forall_impl; [|apply connected_inner].
      intros ev [Hc _]. exact Hc.
  - destruct o; reflexivity.
Qed.

End RouteProperties.

(** * The tracing wrapper *)

(** X11.  With profiling enabled the wrapper begins one subsegment before
    the body and ends it once after the body, whether the body returns or
    raises; when beginning the subsegment itself fails the body is not run
    and the subsegment is ended all the same.  With profiling disabled the
    recorder is not touched. *)
Theorem subsegment_always_ended {E A : Type} (XRAY_PROFILE : bool)
    (xray_recorder : profile.Recorder) (description : string)
    (body : list E * result A) :
  let log := fst (profile.trace XRAY_PROFILE xray_recorder description body) in
  (XRAY_PROFILE = false ->
   profile.recorder_events log = [] /\ profile.body_events log = fst body) /\
  (XRAY_PROFILE = true ->
   profile.recorder_events log
   = [profile.EvBeginSubsegment description; profile.EvEndSubsegment] /\
   exists inner,
     log = inl (profile.EvBeginSubsegment description) :: map inr inner
             ++ [inl profile.EvEndSubsegment] /\
     inner = match profile.begin_subsegment xray_recorder description with
             | Ok _ => fst body
             | Err _ => []
             end).
Proof.
  assert (forall l : list E,
             profile.recorder_events (map inr l) = []
             /\ profile.body_events (map inr l) = l) as Hmap.
  { induction l as [|x l [IH1 IH2]]; [split; reflexivity|].
    split; cbn; [exact IH1 | now rewrite <- IH2 at 2]. }
  assert (forall l : list E,
             profile.recorder_events
               (map inr l ++ [@inl _ E profile.EvEndSubsegment])
             = [profile.EvEndSubsegment]) as Hend.
  { intros l. unfold profile.recorder_events. rewrite flat_map_app.
    fold (@profile.recorder_events E (map inr l)).
    now rewrite (proj1 (Hmap l)). }
  cbv zeta. unfold profile.trace. split; intros ->.
  - cbn [fst]. apply Hmap.
  - destruct (profile.begin_subsegment xray_recorder description); cbn [fst].
    + split.
      * change (profile.recorder_events
                  (inl (profile.EvBeginSubsegment description)
                     :: map inr (fst body) ++ [inl profile.EvEndSubsegment]))
          with (profile.EvBeginSubsegment description
                  :: profile.recorder_events
                       (map inr (fst body)
                          ++ [@inl _ E profile.EvEndSubsegment])).
        now rewrite Hend.
      * eexists. split; reflexivity.
    + split; [reflexivity|]. exists []. split; reflexivity.
Qed.

(** X12.  The wrapper does not change what the body returns or raises as
    long as the recorder's own calls succeed, with profiling enabled or
    not; if ending the subsegment raises, that exception is what the
    caller gets, even when the body had returned normally. *)
Theorem wrapper_outcome {E A : Type} (XRAY_PROFILE : bool)
    (xray_recorder : profile.Recorder) (description : string)
    (body : list E * result A) :
  ((XRAY_PROFILE = false \/
    (profile.begin_subsegment xray_recorder description = Ok tt /\
     profile.end_subsegment xray_recorder = Ok tt)) ->
   snd (profile.trace XRAY_PROFILE xray_recorder description body) = snd body) /\
  (forall e',
      XRAY_PROFILE = true ->
      profile.end_subsegment xray_recorder = Err e' ->
      snd (profile.trace XRAY_PROFILE xray_recorder description body) = Err e').
Proof.
  unfold profile.trace. split.
  - intros [->|[Hb He]]; [reflexivity|].
    destruct XRAY_PROFILE; [|reflexivity]. now rewrite Hb, He.
  - intros e' -> He. rewrite He.
    destruct (profile.begin_subsegment xray_recorder description); reflexivity.
Qed.

(** * The further properties on the sample catalog *)

Lemma range_check_rejects_inverted_witness :
  substituted sample_metadata (Some (Percentile 2), Some (Absolute 30))
  = Ok (80, 30) /\
  resolve_stretch_range sample_metadata (Some (Percentile 2), Some (Absolute 30))
  = Err (InvalidArgumentsError upper_bound_msg) /\
  resolve_stretch_range sample_metadata (Some (Percentile 0), Some (Absolute 30))
  = Ok (10, 30).
Proof.
  split; [reflexivity|]. split.
  - apply (range_check_rejects_inverted sample_metadata
             (Some (Percentile 2), Some (Absolute 30)) 80 30 eq_refl).
    reflexivity.
  - apply (range_check_rejects_inverted sample_metadata
             (Some (Percentile 0), Some (Absolute 30)) 10 30 eq_refl).
    vm_compute. discriminate.
Defined.

Lemma one_sided_override_against_default_witness :
  resolve_stretch_range sample_metadata (Some (Absolute 150), None)
  = Err (InvalidArgumentsError upper_bound_msg) /\
  resolve_stretch_range sample_metadata (None, Some (Absolute (-5)))
  = Err (InvalidArgumentsError upper_bound_msg) /\
  resolve_stretch_range sample_metadata (Some (Absolute 40), None)
  = Ok (40, 100).
Proof.
  split; [|split].
  - apply (one_sided_override_against_default sample_metadata 150). reflexivity.
  - apply (one_sided_override_against_default sample_metadata (-5)). reflexivity.
  - apply (one_sided_override_against_default sample_metadata 40);
      vm_compute; discriminate.
Defined.

Lemma subsegment_always_ended_witness :
  profile.recorder_events
    (fst (rgba_handler true sample_recorder image (fun out => Ok out)
            sample_settings sample_driver [] [] four_bands None None None))
  = [profile.EvBeginSubsegment "rgba_handler"; profile.EvEndSubsegment] /\
  profile.body_events
    (fst (rgba_handler false sample_recorder image (fun out => Ok out)
            sample_settings sample_driver [] [] four_bands None None None))
  = [EvConnect; EvKeyNames; EvDisconnect].
Proof.
  split.
  - apply (subsegment_always_ended true sample_recorder "rgba_handler"
             (sample_rgba [] [] four_bands None)). reflexivity.
  - apply (subsegment_always_ended false sample_recorder "rgba_handler"
             (sample_rgba [] [] four_bands None)). reflexivity.
Defined.

Lemma wrapper_outcome_witness :
  snd (rgba_handler true sample_recorder image (fun out => Ok out)
         sample_settings sample_driver [] [] four_bands None None None)
  = Err (InvalidArgumentsError key_count_msg) /\
  snd (rgba_handler true failing_recorder image (fun out => Ok out)
         sample_settings sample_driver [] ["2020"] four_bands None None None)
  = Err (OtherError "no open subsegment").
Proof.
  split.
  - apply (proj1 (wrapper_outcome true sample_recorder "rgba_handler"
                    (sample_rgba [] [] four_bands None))).
    right. split; reflexivity.
  - apply (proj2 (wrapper_outcome true failing_recorder "rgba_handler"
                    (sample_rgba [] ["2020"] four_bands None)));
      reflexivity.
Defined.

Lemma route_always_reaches_driver_witness :
  trace (server.get_rgba image (fun out => Ok out) sample_settings sample_driver
           [] (Ok sample_options) 3 1 2 "/2020/")
  = trace (sample_rgba [] ["2020"] four_bands
             (Some [None; Some (None, Some (Percentile 2)); None; None])) /\
  exists inner,
    trace (server.get_rgba image (fun out => Ok out) sample_settings
             sample_driver [] (Ok sample_options) 3 1 2 "/2020/")
    = EvConnect :: inner ++ [EvDisconnect] /\
    Forall (fun ev => connection_event ev = false) inner.
Proof.
  split; [reflexivity|].
  destruct (route_always_reaches_driver image (fun out => Ok out)
              sample_settings sample_driver [] "/2020/" (Some (2, 1, 3)%Z))
    as [_ H].
  destruct (H sample_options) as [Ht _]. exact Ht.
Defined.

(** * The conversion script *)

Import optimize_rasters.

Lemma insert_sorted_In (leb : Path -> Path -> bool) (x y : Path) (l : list Path) :
  In y (insert_sorted leb x l) <-> y = x \/ In y l.
Proof.
  induction l as [|z rest IH]; cbn [insert_sorted].
  - cbn. intuition congruence.
  - destruct (leb x z); cbn [In]; [intuition congruence|].
    rewrite IH. intuition congruence.
Qed.

Lemma sorted_In (leb : Path -> Path -> bool) (y : Path) (l : list Path) :
  In y (sorted leb l) <-> In y l.
Proof.
  induction l as [|x rest IH]; cbn [sorted fold_right]; [reflexivity|].
  fold (sorted leb rest). rewrite insert_sorted_In, IH. cbn. intuition congruence.
Qed.

Lemma insert_sorted_NoDup (leb : Path -> Path -> bool) (x : Path) (l : list Path) :
  ~ In x l -> NoDup l -> NoDup (insert_sorted leb x l).
Proof.
  induction l as [|z rest IH]; intros Hx Hl; cbn [insert_sorted].
  - constructor; [intros []|constructor].
  - destruct (leb x z); [now constructor|].
    inversion Hl as [|? ? Hz Hrest]; subst. constructor.
    + rewrite insert_sorted_In. intros [->|H]; [apply Hx; now left|contradiction].
    + apply IH; [|assumption]. intros H. apply Hx. now right.
Qed.

Lemma sorted_NoDup (leb : Path -> Path -> bool) (l : list Path) :
  NoDup l -> NoDup (sorted leb l).
Proof.
  induction 1 as [|x rest Hx Hrest IH]; cbn [sorted fold_right]; [constructor|].
  fold (sorted leb rest). apply insert_sorted_NoDup; [|assumption].
  now rewrite sorted_In.
Qed.

Lemma raster_files_flat_In (world : World) (raster_files : list (list Path))
    (f : Path) :
  In f (raster_files_flat world raster_files) <-> In f (concat raster_files).
Proof.
  unfold raster_files_flat. now rewrite sorted_In, nodup_In.
Qed.

Lemma raster_files_flat_NoDup (world : World) (raster_files : list (list Path)) :
  NoDup (raster_files_flat world raster_files).
Proof.
  unfold raster_files_flat. apply sorted_NoDup, NoDup_nodup.
Qed.

Lemma copies_app (l1 l2 : list script_event) :
  copies (l1 ++ l2) = copies l1 ++ copies l2.
Proof. apply flat_map_app. Qed.

Lemma creations_app (l1 l2 : list script_event) :
  creations (l1 ++ l2) = creations l1 ++ creations l2.
Proof. apply flat_map_app. Qed.

Lemma copy_blocks_quiet (windows : list Window) :
  copies (copy_blocks windows) = [] /\ creations (copy_blocks windows) = [].
Proof.
  induction windows as [|w rest [IH1 IH2]]; split; try reflexivity; assumption.
Qed.

Section ScriptFacts.

Variable world : World.
Variable output_folder : Path.
Variable overwrite : bool.
Variable resampling_method : string.

(** What one pass of the loop body leaves behind. *)
Lemma convert_effects (st : state) (input_file : Path) :
  let log := fst (convert world output_folder overwrite resampling_method st
                          input_file) in
  match snd (convert world output_folder overwrite resampling_method st
                     input_file) with
  | inr st' =>
      copies log = [output_of world output_folder input_file] /\
      (overwrite = false ->
       files st (output_of world output_folder input_file) = false) /\
      (forall p,
          files st' p
          = if String.eqb p (output_of world output_folder input_file)
            then true else files st p) /\
      (exists m,
          decided world st input_file = Some m /\
          creations log = [m] /\ in_memory st' = Some m)
  | inl _ =>
      copies log = [] /\
      (creations log = [] \/
       exists m, decided world st input_file = Some m /\ creations log = [m])
  end.
Proof.
  unfold convert, decided.
  destruct (negb overwrite && files st _) eqn:Eab; cbn [fst snd].
  { split; [reflexivity|now left]. }
  destruct (raster_open world input_file) as [e|[width height]]; cbn [fst snd].
  { split; [reflexivity|now left]. }
  destruct (copy_blocks_quiet (block_windows world width height)) as [Hc Hk].
  destruct (max_overview_level height width) as [e|level]; cbn [fst snd].
  { split; [exact Hc|]. right. eexists. split; [reflexivity|].
    cbn [creations flat_map app]. fold (creations (copy_blocks
      (block_windows world width height))). now rewrite Hk. }
  destruct (RESAMPLING_METHODS resampling_method) as [rs|]; cbn [fst snd].
  - split; [|split; [|split]].
    + change (copies (EvOpen input_file :: EvCreate _ :: ?l))
        with (copies l).
      cbn [app]. change (copies (EvOpen input_file :: EvCreate ?m :: ?l))
        with (copies l).
      now rewrite copies_app, Hc.
    + intros ->. cbn [negb andb] in Eab. exact Eab.
    + reflexivity.
    + eexists. split; [reflexivity|]. split; [|reflexivity].
      cbn [app]. change (creations (EvOpen input_file :: EvCreate ?m :: ?l))
        with (m :: creations l).
      now rewrite creations_app, Hk.
  - split; [exact Hc|]. right. eexists. split; [reflexivity|].
    change (creations (EvOpen input_file :: EvCreate ?m :: ?l))
      with (m :: creations l). now rewrite Hk.
Qed.


Abbreviation script := (optimize_rasters world output_folder overwrite
                                         resampling_method).
Abbreviation loop := (convert_all world output_folder overwrite
                                  resampling_method).
Abbreviation target := (output_of world output_folder).

Lemma loop_cons (st : state) (input_file : Path) (rest : list Path) :
  loop st (input_file :: rest)
  = match convert world output_folder overwrite resampling_method st input_file
    with
    | (log, inl e) => (log, Some e)
    | (log, inr st') => (log ++ fst (loop st' rest), snd (loop st' rest))
    end.
Proof.
  cbn [convert_all].
  destruct (convert world output_folder overwrite resampling_method st
                    input_file) as [log [e|st']]; [reflexivity|].
  destruct (convert_all world output_folder overwrite resampling_method st' rest);
    reflexivity.
Qed.

(** The script's log is the loop's log after the folder is made, unless
    the script stops before. *)
Lemma script_log (raster_files : list (list Path)) (given : option bool) :
  let flat := raster_files_flat world raster_files in
  let run := script raster_files given in
  (copies (fst run) = [] /\ creations (fst run) = [] /\ snd run <> None) \/
  (flat = [] /\ run = ([EvEcho "No files given"], None)) \/
  (copies (fst run)
   = copies (fst (loop {| files := is_file world; in_memory := given |} flat)) /\
   creations (fst run)
   = creations (fst (loop {| files := is_file world; in_memory := given |} flat)) /\
   snd run = snd (loop {| files := is_file world; in_memory := given |} flat)).
Proof.
  intros flat run. subst run. unfold optimize_rasters. fold flat.
  destruct flat as [|f rest] eqn:E; [right; left; now split|].
  destruct (find _ (f :: rest)); [left; repeat split; discriminate|].
  destruct (mkdir world output_folder); [left; repeat split; discriminate|].
  right; right.
  destruct (convert_all world output_folder overwrite resampling_method _ _)
    as [log r]. repeat split.
Qed.

Lemma loop_copies_fresh :
  overwrite = false ->
  forall input_files st,
    NoDup (copies (fst (loop st input_files))) /\
    forall p, In p (copies (fst (loop st input_files))) -> files st p = false.
Proof.
  intros Hov. induction input_files as [|f rest IH]; intros st.
  - split; [constructor|intros p []].
  - rewrite loop_cons.
    pose proof (convert_effects st f) as H. cbv zeta in H.
    destruct (convert world output_folder overwrite resampling_method st f)
      as [log [e|st']]; cbn [fst snd] in *.
    + destruct H as [-> _]. split; [constructor|intros p []].
    + destruct H as (Hc & Hfresh & Hfiles & _).
      destruct (IH st') as [Hnd Hin].
      rewrite copies_app, Hc. cbn [app]. split.
      * constructor; [|assumption]. intros Hbad. apply Hin in Hbad.
        rewrite Hfiles, String.eqb_refl in Hbad. discriminate.
      * intros p [<-|Hp]; [now apply Hfresh|].
        apply Hin in Hp. rewrite Hfiles in Hp.
        destruct (String.eqb p (target f)); [discriminate|assumption].
Qed.

Lemma loop_creations_given :
  forall input_files st v,
    in_memory st = Some v ->
    forall m, In m (creations (fst (loop st input_files))) -> m = v.
Proof.
  induction input_files as [|f rest IH]; intros st v Hv m; [intros []|].
  rewrite loop_cons.
  pose proof (convert_effects st f) as H. cbv zeta in H.
  assert (forall m', decided world st f = Some m' -> m' = v) as Hdec.
  { unfold decided. rewrite Hv.
    destruct (raster_open world f) as [|[w h]]; [discriminate|].
    intros m' E. now injection E as <-. }
  destruct (convert world output_folder overwrite resampling_method st f)
    as [log [e|st']]; cbn [fst snd] in *.
  - destruct H as [_ [->|(m' & Hm' & ->)]]; [intros []|].
    intros [<-|[]]. now apply Hdec.
  - destruct H as (_ & _ & _ & m' & Hm' & Hcr & Hst').
    rewrite creations_app, Hcr. cbn [app]. intros [<-|Hin].
    + now apply Hdec.
    + apply Hdec in Hm'. subst m'. now apply (IH st' v Hst').
Qed.

Lemma loop_creations_first :
  forall input_files st input_file m,
    decided world st input_file = Some m ->
    forall m', In m' (creations (fst (loop st (input_file :: input_files)))) ->
               m' = m.
Proof.
  intros input_files st f m Hm m'. rewrite loop_cons.
  pose proof (convert_effects st f) as H. cbv zeta in H.
  destruct (convert world output_folder overwrite resampling_method st f)
    as [log [e|st']]; cbn [fst snd] in *.
  - destruct H as [_ [->|(m0 & Hm0 & ->)]]; [intros []|].
    intros [<-|[]]. congruence.
  - destruct H as (_ & _ & _ & m0 & Hm0 & Hcr & Hst').
    assert (m0 = m) as -> by congruence.
    rewrite creations_app, Hcr. cbn [app]. intros [<-|Hin]; [reflexivity|].
    now apply (loop_creations_given input_files st' m Hst').
Qed.

Lemma loop_done_copies :
  forall input_files st,
    snd (loop st input_files) = None ->
    copies (fst (loop st input_files)) = map target input_files.
Proof.
  induction input_files as [|f rest IH]; intros st; [reflexivity|].
  rewrite loop_cons.
  pose proof (convert_effects st f) as H. cbv zeta in H.
  destruct (convert world output_folder overwrite resampling_method st f)
    as [log [e|st']]; cbn [fst snd] in *; [discriminate|].
  destruct H as (Hc & _). intros Hdone.
  rewrite copies_app, Hc, (IH st' Hdone). reflexivity.
Qed.

Lemma loop_creations_unopened (input_files : list Path) (st : state)
    (input_file : Path) :
  decided world st input_file = None ->
  creations (fst (loop st (input_file :: input_files))) = [].
Proof.
  intros Hd. rewrite loop_cons.
  pose proof (convert_effects st input_file) as H. cbv zeta in H.
  destruct (convert world output_folder overwrite resampling_method st
                    input_file) as [log [e|st']]; cbn [fst snd] in *.
  - destruct H as [_ [->|(m & Hm & _)]]; [reflexivity|congruence].
  - destruct H as (_ & _ & _ & m & Hm & _). congruence.
Qed.

(** X13.  Nothing is created before every input has been checked: with no
    input file the script only prints a message, and if some input is not
    a file it aborts, naming such an input, without creating the output
    folder and without reading or writing any raster. *)
Theorem inputs_checked_before_any_effect (raster_files : list (list Path))
    (given : option bool) :
  (concat raster_files = [] ->
   optimize_rasters world output_folder overwrite resampling_method
     raster_files given
   = ([EvEcho "No files given"], None)) /\
  (forall f,
      In f (concat raster_files) -> is_file world f = false ->
      exists f',
        In f' (concat raster_files) /\ is_file world f' = false /\
        optimize_rasters world output_folder overwrite resampling_method
          raster_files given
        = ([], Some (Abort (Some (not_a_file_msg f'))))).
Proof.
  split.
  - intros E. unfold optimize_rasters, raster_files_flat. now rewrite E.
  - intros f Hin Hf. unfold optimize_rasters.
    apply (raster_files_flat_In world) in Hin.
    destruct (raster_files_flat world raster_files) as [|f0 rest] eqn:E;
      [destruct Hin|].
    destruct (find (fun f1 => negb (is_file world f1)) (f0 :: rest))
      as [f'|] eqn:Ef.
    + apply find_some in Ef. destruct Ef as [Hin' Hf'].
      exists f'. rewrite <- E in Hin'.
      apply raster_files_flat_In in Hin'. apply negb_true_iff in Hf'.
      repeat split; assumption.
    + apply (find_none _ _ Ef) in Hin. rewrite Hf in Hin. discriminate.
Qed.

Lemma existing_outputs_kept_aux (raster_files : list (list Path))
    (given : option bool) :
  overwrite = false ->
  NoDup (copies (fst (optimize_rasters world output_folder overwrite
                        resampling_method raster_files given))) /\
  forall p,
    In p (copies (fst (optimize_rasters world output_folder overwrite
                         resampling_method raster_files given))) ->
    is_file world p = false.
Proof.
  intros Hov.
  destruct (script_log raster_files given) as [(Hc & _) | [(_ & Hr) | (Hc & _)]].
  - rewrite Hc. split; [constructor|intros p []].
  - rewrite Hr. split; [constructor|intros p []].
  - rewrite Hc.
    apply (loop_copies_fresh Hov (raster_files_flat world raster_files)
             {| files := is_file world; in_memory := given |}).
Qed.

(** X14.  Without [--overwrite] the script never writes to a path that was
    a file when it started, and never writes the same output path twice. *)
Theorem existing_outputs_are_kept (raster_files : list (list Path))
    (given : option bool) :
  overwrite = false ->
  let log := fst (optimize_rasters world output_folder overwrite
                    resampling_method raster_files given) in
  NoDup (copies log) /\
  forall p, In p (copies log) -> is_file world p = false.
Proof.
  intros Hov log. subst log. now apply existing_outputs_kept_aux.
Qed.

(** X15.  Where the working raster is kept is decided once per run: every
    working raster of a run is created the same way, as asked for with
    [--in-memory/--no-in-memory], and otherwise by the size of the first
    input alone, whatever the sizes of the inputs that follow. *)
Theorem in_memory_decided_once (raster_files : list (list Path))
    (given : option bool) :
  let log := fst (optimize_rasters world output_folder overwrite
                    resampling_method raster_files given) in
  (forall v, given = Some v -> forall m, In m (creations log) -> m = v) /\
  (forall first rest width height,
      given = None ->
      raster_files_flat world raster_files = first :: rest ->
      raster_open world first = inr (width, height) ->
      forall m,
        In m (creations log) ->
        m = (width * height <? IN_MEMORY_THRESHOLD)%Z) /\
  (forall m m', In m (creations log) -> In m' (creations log) -> m = m').
Proof.
  intros log. subst log.
  set (st := {| files := is_file world; in_memory := given |}).
  assert (forall v, given = Some v ->
                    forall m,
                      In m (creations (fst (optimize_rasters world output_folder
                              overwrite resampling_method raster_files given)))
                      -> m = v) as Hgiven.
  { intros v Hv m.
    destruct (script_log raster_files given)
      as [(_ & Hc & _) | [(_ & Hr) | (_ & Hc & _)]].
    - rewrite Hc. intros [].
    - rewrite Hr. intros [].
    - rewrite Hc. now apply (loop_creations_given _ st v). }
  assert (forall first rest m0,
             raster_files_flat world raster_files = first :: rest ->
             decided world st first = Some m0 ->
             forall m,
               In m (creations (fst (optimize_rasters world output_folder
                       overwrite resampling_method raster_files given)))
               -> m = m0) as Hfirst.
  { intros first rest m0 Hflat Hd m.
    destruct (script_log raster_files given)
      as [(_ & Hc & _) | [(_ & Hr) | (_ & Hc & _)]].
    - rewrite Hc. intros [].
    - rewrite Hr. intros [].
    - rewrite Hc. fold st. rewrite Hflat.
      now apply (loop_creations_first rest st first m0). }
  split; [exact Hgiven|]. split.
  - intros first rest width height Hnone Hflat Hopen.
    apply (Hfirst first rest _ Hflat).
    unfold decided. rewrite Hopen. subst st. cbn [in_memory]. now rewrite Hnone.
  - intros m m' Hm Hm'.
    destruct (raster_files_flat world raster_files) as [|first rest] eqn:Hflat.
    + exfalso. revert Hm. unfold optimize_rasters. rewrite Hflat.
      cbn. intros [].
    + destruct (decided world st first) as [m0|] eqn:Hd.
      * rewrite (Hfirst first rest m0 eq_refl Hd m Hm).
        now rewrite (Hfirst first rest m0 eq_refl Hd m' Hm').
      * exfalso. revert Hm.
        destruct (script_log raster_files given)
          as [(_ & Hc & _) | [(_ & Hr) | (_ & Hc & _)]].
        -- rewrite Hc. intros [].
        -- rewrite Hr. intros [].
        -- rewrite Hc. fold st. rewrite Hflat.
           now rewrite (loop_creations_unopened rest st first Hd).
Qed.

(** X16.  A run that ends without an exception has written one output per
    distinct input, in the sorted order of the inputs; so without
    [--overwrite] the outputs of a completed run are pairwise different,
    and a run in which two inputs flatten to the same output name cannot
    complete. *)
Theorem completed_run_outputs (raster_files : list (list Path))
    (given : option bool) :
  snd (optimize_rasters world output_folder overwrite resampling_method
         raster_files given) = None ->
  copies (fst (optimize_rasters world output_folder overwrite resampling_method
                 raster_files given))
  = map (output_of world output_folder) (raster_files_flat world raster_files)
  /\
  (overwrite = false ->
   NoDup (map (output_of world output_folder)
              (raster_files_flat world raster_files))).
Proof.
  intros Hdone.
  assert (copies (fst (optimize_rasters world output_folder overwrite
                         resampling_method raster_files given))
          = map (output_of world output_folder)
                (raster_files_flat world raster_files)) as Hcopies.
  { destruct (script_log raster_files given)
      as [(_ & _ & Hne) | [(Hflat & Hr) | (Hc & _ & Hs)]].
    - contradiction.
    - rewrite Hr, Hflat. reflexivity.
    - rewrite Hc. apply loop_done_copies. now rewrite <- Hs. }
  split; [exact Hcopies|].
  intros Hov. rewrite <- Hcopies.
  apply (proj1 (existing_outputs_kept_aux raster_files given Hov)).
Qed.

End ScriptFacts.

(** X17.  The overview levels are the powers of two 2, 4, ... up to the
    first one that is at least the number of blocks along the longer side
    of the raster (none for a single block); a raster smaller than one
    block in both directions makes the computation raise. *)
Theorem overview_levels (height width : Z) :
  let blocks := Z.max (height / blockysize) (width / blockxsize) in
  ((blocks <= 0)%Z -> max_overview_level height width = inl MathDomainError) /\
  ((0 < blocks)%Z ->
   exists level,
     max_overview_level height width = inr level /\
     (0 <= level)%Z /\
     (blocks <= 2 ^ level)%Z /\ (2 ^ level < 2 * blocks)%Z /\
     length (overview_factors level) = Z.to_nat level /\
     forall i, (i < Z.to_nat level)%nat ->
               nth i (overview_factors level) 0%Z = (2 ^ (Z.of_nat i + 1))%Z).
Proof.
  intros blocks. unfold max_overview_level. fold blocks. split.
  - intros H. apply Z.leb_le in H. now rewrite H.
  - intros H. assert ((blocks <=? 0)%Z = false) as -> by now apply Z.leb_gt.
    exists (Z.log2_up blocks). split; [reflexivity|].
    pose proof (Z.log2_up_nonneg blocks) as Hnn.
    split; [assumption|].
    assert ((blocks <= 2 ^ Z.log2_up blocks)%Z /\
            (2 ^ Z.log2_up blocks < 2 * blocks)%Z) as [H1 H2].
    { destruct (Z.eq_dec blocks 1) as [->|Hne]; [cbn; lia|].
      pose proof (Z.log2_up_spec blocks ltac:(lia)) as [Hlo Hhi].
      split; [assumption|].
      replace (Z.log2_up blocks) with (Z.succ (Z.pred (Z.log2_up blocks)))
        by lia.
      rewrite Z.pow_succ_r; [lia|].
      pose proof (Z.log2_up_pos blocks ltac:(lia)). lia. }
    repeat split; try assumption.
    + unfold overview_factors. now rewrite length_map, length_seq.
    + intros i Hi. unfold overview_factors.
      rewrite (nth_indep _ 0%Z ((fun j => (2 ^ Z.of_nat j)%Z) 0%nat))
        by now rewrite length_map, length_seq.
      rewrite (map_nth (fun j => (2 ^ Z.of_nat j)%Z)), seq_nth by assumption.
      f_equal. lia.
Qed.

(** X18.  A raster with fewer than 256 columns and fewer than 256 rows is
    not converted: its blocks are copied to the working raster, then the
    overview computation raises, and no output file is written for it. *)
Theorem small_raster_not_converted (world : World) (output_folder : Path)
    (overwrite : bool) (resampling_method : string) (st : state)
    (input_file : Path) (width height : Z) :
  negb overwrite && files st (output_of world output_folder input_file)
  = false ->
  raster_open world input_file = inr (width, height) ->
  (0 <= width < blockxsize)%Z ->
  (0 <= height < blockysize)%Z ->
  snd (convert world output_folder overwrite resampling_method st input_file)
  = inl MathDomainError /\
  copies (fst (convert world output_folder overwrite resampling_method st
                       input_file)) = [] /\
  creations (fst (convert world output_folder overwrite resampling_method st
                          input_file)) <> [].
Proof.
  intros Hab Hopen Hw Hh. unfold convert. rewrite Hab, Hopen.
  unfold max_overview_level.
  rewrite (Z.div_small height blockysize Hh), (Z.div_small width blockxsize Hw).
  cbn [Z.max Z.compare Z.leb fst snd].
  split; [reflexivity|]. split; [|discriminate].
  apply (copy_blocks_quiet (block_windows world width height)).
Qed.

(** * The conversion script on the sample world *)

Lemma inputs_checked_before_any_effect_witness :
  exists f',
    In f' (concat [["in/a.tiff"; "missing.tif"]; ["in/b.tiff"]]) /\
    is_file sample_world f' = false /\
    optimize_rasters sample_world "out" true "average"
      [["in/a.tiff"; "missing.tif"]; ["in/b.tiff"]] None
    = ([], Some (Abort (Some (not_a_file_msg f')))).
Proof.
  apply (proj2 (inputs_checked_before_any_effect sample_world "out" true
                  "average" [["in/a.tiff"; "missing.tif"]; ["in/b.tiff"]] None)
           "missing.tif").
  - right. left. reflexivity.
  - reflexivity.
Defined.

Lemma existing_outputs_are_kept_witness :
  NoDup (copies (fst (optimize_rasters sample_world "out" false "average"
                        [["in/a.tiff"; "in/b.tiff"]] None))) /\
  forall p,
    In p (copies (fst (optimize_rasters sample_world "out" false "average"
                         [["in/a.tiff"; "in/b.tiff"]] None))) ->
    is_file sample_world p = false.
Proof.
  apply (existing_outputs_are_kept sample_world "out" false "average"
           [["in/a.tiff"; "in/b.tiff"]] None).
  reflexivity.
Defined.

Lemma in_memory_decided_once_witness :
  creations (fst (optimize_rasters sample_world "out" true "average"
                    [["in/b.tiff"; "in/a.tiff"]] None))
  = [true; true] /\
  forall m,
    In m (creations (fst (optimize_rasters sample_world "out" true "average"
                            [["in/b.tiff"; "in/a.tiff"]] None))) ->
    m = (1000 * 800 <? IN_MEMORY_THRESHOLD)%Z.
Proof.
  split; [reflexivity|].
  destruct (in_memory_decided_once sample_world "out" true "average"
              [["in/b.tiff"; "in/a.tiff"]] None) as (_ & H & _).
  apply (H "in/a.tiff" ["in/b.tiff"] 1000%Z 800%Z); reflexivity.
Defined.

Lemma completed_run_outputs_witness :
  copies (fst (optimize_rasters sample_world "out" true "average"
                 [["in/b.tiff"]; ["in/a.tiff"; "in/b.tiff"]] None))
  = ["out/a.tif"; "out/b.tif"] /\
  NoDup (map (output_of sample_world "out")
             (raster_files_flat sample_world [["in/a.tiff"]])).
Proof.
  split.
  - apply (completed_run_outputs sample_world "out" true "average"
             [["in/b.tiff"]; ["in/a.tiff"; "in/b.tiff"]] None).
    reflexivity.
  - apply (completed_run_outputs sample_world "out" false "average"
             [["in/a.tiff"]] None); reflexivity.
Defined.

Lemma overview_levels_witness :
  exists level,
    max_overview_level 5000 3000 = inr level /\
    (0 <= level)%Z /\
    (Z.max (5000 / blockysize) (3000 / blockxsize) <= 2 ^ level)%Z /\
    (2 ^ level < 2 * Z.max (5000 / blockysize) (3000 / blockxsize))%Z /\
    length (overview_factors level) = Z.to_nat level /\
    forall i, (i < Z.to_nat level)%nat ->
              nth i (overview_factors level) 0%Z = (2 ^ (Z.of_nat i + 1))%Z.
Proof.
  apply (proj2 (overview_levels 5000 3000)). reflexivity.
Defined.

Lemma small_raster_not_converted_witness :
  snd (convert sample_world "out" false "average"
         {| files := is_file sample_world; in_memory := None |} "in/tiny.tiff")
  = inl MathDomainError /\
  copies (fst (convert sample_world "out" false "average"
                 {| files := is_file sample_world; in_memory := None |}
                 "in/tiny.tiff")) = [] /\
  creations (fst (convert sample_world "out" false "average"
                    {| files := is_file sample_world; in_memory := None |}
                    "in/tiny.tiff")) <> [].
Proof.
  apply (small_raster_not_converted sample_world "out" false "average"
           {| files := is_file sample_world; in_memory := None |}
           "in/tiny.tiff" 100 200).
  - reflexivity.
  - reflexivity.
  - unfold blockxsize. lia.
  - unfold blockysize. lia.
Defined.

(** * The schema's pre-load step *)

Section SchemaFacts.

Variable JSON : Type.
Variable json_loads : string -> option JSON.

Lemma decode_fields_spec (vars : list string) :
  NoDup vars ->
  forall data : server.query JSON,
    (forall v, In v vars -> forall j, data v <> Some (server.Decoded j)) ->
    match server.decode_fields JSON json_loads vars data with
    | inr data' =>
        (forall v, ~ In v vars -> data' v = data v) /\
        (forall v s,
            In v vars -> data v = Some (server.Raw s) ->
            if server.truthy s
            then exists j,
                json_loads s = Some j /\ data' v = Some (server.Decoded j)
            else data' v = data v) /\
        (forall v, In v vars -> data v = None -> data' v = None)
    | inl msg =>
        exists pre var post s,
          vars = pre ++ var :: post /\
          data var = Some (server.Raw s) /\ server.truthy s = true /\
          json_loads s = None /\ msg = server.decode_error_msg var /\
          forall v s',
            In v pre -> data v = Some (server.Raw s') ->
            server.truthy s' = true -> json_loads s' <> None
    end.
Proof.
  induction 1 as [|var rest Hvar Hrest IH]; intros data Hraw.
  - cbn [server.decode_fields]. repeat split; intros; try reflexivity;
      contradiction.
  - cbn [server.decode_fields].
    assert (forall data0 : server.query JSON,
               (forall v, v <> var -> data0 v = data v) ->
               (forall v, In v rest -> forall j, data0 v <> Some (server.Decoded j)))
      as Hraw0.
    { intros data0 Hsame v Hin j. rewrite Hsame.
      - apply Hraw. now right.
      - intros ->. contradiction. }
    (* what the rest of the loop yields, seen from [data] *)
    assert (forall data0 : server.query JSON,
               (forall v, v <> var -> data0 v = data v) ->
               (forall s, data var = Some (server.Raw s) ->
                          if server.truthy s
                          then exists j, json_loads s = Some j /\
                                         data0 var = Some (server.Decoded j)
                          else data0 var = data var) ->
               (data var = None -> data0 var = None) ->
               match server.decode_fields JSON json_loads rest data0 with
               | inr data' =>
                   (forall v, ~ In v (var :: rest) -> data' v = data v) /\
                   (forall v s,
                       In v (var :: rest) -> data v = Some (server.Raw s) ->
                       if server.truthy s
                       then exists j,
                           json_loads s = Some j /\
                           data' v = Some (server.Decoded j)
                       else data' v = data v) /\
                   (forall v, In v (var :: rest) -> data v = None ->
                              data' v = None)
               | inl msg =>
                   exists pre var' post s,
                     var :: rest = pre ++ var' :: post /\
                     data var' = Some (server.Raw s) /\
                     server.truthy s = true /\
                     json_loads s = None /\
                     msg = server.decode_error_msg var' /\
                     forall v s',
                       In v pre -> data v = Some (server.Raw s') ->
                       server.truthy s' = true -> json_loads s' <> None
               end) as Hstep.
    { intros data0 Hsame Hhere Hnone.
      specialize (IH data0 (Hraw0 data0 Hsame)).
      destruct (server.decode_fields JSON json_loads rest data0) as [msg|data'].
      - destruct IH as (pre & var' & post & s & Hv & Hd & Ht & Hj & Hm & Hpre).
        assert (In var' rest) as Hin' by (rewrite Hv; apply in_elt).
        assert (var' <> var) as Hne by (intros ->; contradiction).
        exists (var :: pre), var', post, s.
        rewrite Hv. repeat split; try assumption.
        + now rewrite <- (Hsame var' Hne).
        + intros v s' [<-|Hin] Hds Hts.
          * specialize (Hhere s' Hds). rewrite Hts in Hhere.
            destruct Hhere as (j & Hj' & _). congruence.
          * assert (In v rest) as Hinr
                by (rewrite Hv; apply in_or_app; now left).
            assert (v <> var) as Hnev by (intros ->; contradiction).
            apply (Hpre v s' Hin); [|assumption]. now rewrite (Hsame v Hnev).
      - destruct IH as (Hout & Hin & Hno). repeat split.
        + intros v Hv. assert (v <> var) by (intros ->; apply Hv; now left).
          rewrite Hout by (intros Hr; apply Hv; now right). now apply Hsame.
        + intros v s [<-|Hv] Hds.
          * rewrite (Hout var Hvar). specialize (Hhere s Hds).
            destruct (server.truthy s); assumption.
          * assert (v <> var) as Hne by (intros ->; contradiction).
            specialize (Hin v s Hv). rewrite (Hsame v Hne) in Hin.
            specialize (Hin Hds).
            destruct (server.truthy s); assumption.
        + intros v [<-|Hv] Hdn.
          * rewrite (Hout var Hvar). now apply Hnone.
          * assert (v <> var) as Hne by (intros ->; contradiction).
            apply (Hno v Hv). now rewrite (Hsame v Hne). }
    destruct (data var) as [[val|j]|] eqn:Ed.
    + destruct (server.truthy val) eqn:Et.
      * destruct (json_loads val) as [j|] eqn:Ej.
        -- apply Hstep.
           ++ intros v Hne. unfold server.update.
              destruct (String.eqb_spec v var); [contradiction|reflexivity].
           ++ intros s E. injection E as <-. rewrite Et. exists j.
              split; [assumption|]. unfold server.update.
              now rewrite String.eqb_refl.
           ++ discriminate.
        -- exists [], var, rest, val. repeat split; try assumption.
           intros v s' [].
      * apply Hstep; [reflexivity| |discriminate].
        intros s E. injection E as <-. now rewrite Et.
    + exfalso. apply (Hraw var (or_introl eq_refl) j). exact Ed.
    + apply Hstep; [reflexivity|discriminate|intros _; exact Ed].
Qed.

End SchemaFacts.

Section SchemaProperties.

Variable JSON : Type.
Variable json_loads : string -> option JSON.
Variable args : string -> option string.

Lemma json_fields_NoDup : NoDup server.json_fields.
Proof.
  unfold server.json_fields.
  repeat (constructor; [cbn; intuition discriminate|]). constructor.
Qed.

Lemma process_ranges_spec :
  match server.process_ranges JSON json_loads args with
  | inr data' =>
      (forall k, ~ In k server.json_fields ->
                 data' k = option_map server.Raw (args k)) /\
      (forall k, In k server.json_fields ->
                 match server.to_decode args k with
                 | Some s =>
                     exists j, json_loads s = Some j /\
                               data' k = Some (server.Decoded j)
                 | None => data' k = option_map server.Raw (args k)
                 end)
  | inl msg =>
      exists pre var post s,
        server.json_fields = pre ++ var :: post /\
        server.to_decode args var = Some s /\
        json_loads s = None /\ msg = server.decode_error_msg var /\
        forall v s',
          In v pre -> server.to_decode args v = Some s' ->
          json_loads s' <> None
  end.
Proof.
  unfold server.process_ranges.
  pose proof (decode_fields_spec JSON json_loads server.json_fields
                json_fields_NoDup (fun k => option_map server.Raw (args k)))
    as H.
  cbv beta in H.
  assert (forall v, In v server.json_fields ->
                    forall j : JSON, option_map server.Raw (args v)
                                     <> Some (server.Decoded j)) as Hraw.
  { intros v _ j. destruct (args v); discriminate. }
  specialize (H Hraw).
  destruct (server.decode_fields JSON json_loads server.json_fields _)
    as [msg|data'].
  - destruct H as (pre & var & post & s & Hv & Hd & Ht & Hj & Hm & Hpre).
    exists pre, var, post, s. unfold server.to_decode.
    destruct (args var) as [val|] eqn:Ea; [|discriminate].
    injection Hd as ->. rewrite Ht. repeat split; try assumption.
    intros v s' Hin Hto.
    destruct (args v) as [val'|] eqn:Ea'; [|discriminate].
    destruct (server.truthy val') eqn:Et'; [|discriminate].
    injection Hto as ->. apply (Hpre v s' Hin); [|assumption].
    now rewrite Ea'.
  - destruct H as (Hout & Hin & Hno). split; [exact Hout|].
    intros k Hk. unfold server.to_decode.
    destruct (args k) as [val|] eqn:Ea.
    + specialize (Hin k val Hk). rewrite Ea in Hin. specialize (Hin eq_refl).
      destruct (server.truthy val); assumption.
    + apply (Hno k Hk). now rewrite Ea.
Qed.

(** X19.  When the pre-load step succeeds, each of the five JSON-valued
    fields that is present and not empty holds what [json.loads] made of
    its text; a field that is absent or empty, and every other key of the
    query, is passed on as it was. *)
Theorem process_ranges_decodes (data' : server.query JSON) :
  server.process_ranges JSON json_loads args = inr data' ->
  (forall k, ~ In k server.json_fields ->
             data' k = option_map server.Raw (args k)) /\
  (forall k, In k server.json_fields ->
             match server.to_decode args k with
             | Some s =>
                 exists j, json_loads s = Some j /\
                           data' k = Some (server.Decoded j)
             | None => data' k = option_map server.Raw (args k)
             end).
Proof.
  intros E. pose proof process_ranges_spec as H. rewrite E in H. exact H.
Qed.


End SchemaProperties.

Lemma process_ranges_decodes_witness :
  exists data',
    server.process_ranges (list Z) sample_json_loads sample_args = inr data' /\
    data' "r_range" = Some (server.Decoded [0; 1]%Z) /\
    data' "g_range" = Some (server.Raw "") /\
    data' "b_range" = None /\
    data' "r" = Some (server.Raw "b1").
Proof.
  destruct (server.process_ranges (list Z) sample_json_loads sample_args)
    as [msg|data'] eqn:E; [discriminate E|].
  exists data'. split; [reflexivity|].
  destruct (process_ranges_decodes (list Z) sample_json_loads sample_args data' E)
    as [Hother Hfields].
  split; [|split; [|split]].
  - destruct (Hfields "r_range") as (j & Hj & Hd); [cbn; tauto|].
    rewrite Hd. f_equal. f_equal. cbn in Hj. congruence.
  - apply (Hfields "g_range"). cbn; tauto.
  - apply (Hfields "b_range"). cbn; tauto.
  - apply (Hother "r"). cbn. intuition discriminate.
Defined.

